(** * lab7: angles between all pairs of n-dimensional vectors

    A shallow embedding of [src/lab7.cpp]: the [dvec] value type with its
    [dot], [norm] and [theta] operations, the textual rendering
    [operator<<], the line-oriented ingestion [ingest_dvecs], the pair
    enumeration [pairwise_elts] and the angle ordering [theta_sort].

    A C++ [double] is an IEEE-754 binary64 number; it is modelled by the
    Standard Library's executable specification of binary floating point
    ([spec_float] with precision 53 and maximal exponent 1024, rounding to
    nearest even, one NaN).  C++ exceptions are modelled by an explicit
    result type.  What the program takes from the C and C++ libraries
    ([std::acos], [std::sort], the extraction and insertion of a [double]
    on a stream) is modelled from the documents that define it, and each
    such definition says so. *)

From Stdlib Require Import Ascii String.
From Stdlib Require Import ZArith List Bool Lia Arith.
From Stdlib Require Import Permutation Sorted.
From Stdlib Require Import Floats.SpecFloat.
Import ListNotations.

(* ================================================================== *)
(** ** IEEE-754 binary64 *)

Module Double.

Definition prec : Z := 53.
Definition emax : Z := 1024.

Definition double : Type := spec_float.

Definition add : double -> double -> double := SFadd prec emax.
Definition sub : double -> double -> double := SFsub prec emax.
Definition mul : double -> double -> double := SFmul prec emax.
Definition div : double -> double -> double := SFdiv prec emax.
Definition sqrt : double -> double := SFsqrt prec emax.
Definition abs : double -> double := SFabs.

(** The comparison operators of C++ on [double]: every comparison that
    involves a NaN is false, and the two zeros compare equal. *)
Definition ltb : double -> double -> bool := SFltb.
Definition leb : double -> double -> bool := SFleb.
Definition eqb : double -> double -> bool := SFeqb.

Definition nan : double := S754_nan.
Definition zero : double := S754_zero false.
Definition of_Z (z : Z) : double := binary_normalize prec emax z 0 false.
Definition one : double := of_Z 1.

Definition is_nan (x : double) : bool :=
  match x with S754_nan => true | _ => false end.

(** A value a C++ [double] can hold: the mantissa and exponent of a
    finite number are in canonical binary64 form. *)
Definition valid (x : double) : bool := valid_binary prec emax x.

(** [std::acos].  The library computes the arc cosine inside the domain
    [-1, 1]; that computation is the parameter [acos_in_domain].  What
    ISO C (Annex F.10.1.1) fixes is written out: a NaN argument gives
    NaN, an argument of magnitude above 1 is a domain error that returns
    NaN, and [acos(1)] is exactly [+0]. *)
Definition acos (acos_in_domain : double -> double) (x : double) : double :=
  if is_nan x then nan
  else if ltb one (abs x) then nan
  else if eqb x one then zero
  else acos_in_domain x.

End Double.

Import Double.

(* ================================================================== *)
(** ** Exceptions *)

(** The two exception classes the program throws, with their messages. *)
Inductive exception : Type :=
| logic_error (what : string)
| runtime_error (what : string).

Inductive result (A : Type) : Type :=
| Ok (a : A)
| Throw (e : exception).

Arguments Ok {A} a.
Arguments Throw {A} e.

Definition bind {A B : Type} (r : result A) (k : A -> result B) : result B :=
  match r with
  | Ok a => k a
  | Throw e => Throw e
  end.

Notation "x <- r ;; k" := (bind r (fun x => k))
  (at level 61, r at next level, right associativity).
Notation "r ;;; k" := (bind r (fun _ => k))
  (at level 61, right associativity).

Definition mismatched_dvec_dimensions : exception :=
  logic_error "mismatched dvec dimensions".
Definition mismatched_input_vector_dimensions : exception :=
  runtime_error "mismatched input vector dimensions".

(** The spec's single error kind: both throw sites report a dimension
    mismatch. *)
Definition DimensionMismatch (e : exception) : Prop :=
  e = mismatched_dvec_dimensions \/ e = mismatched_input_vector_dimensions.

(* ================================================================== *)
(** ** The vector type *)

(** [struct dvec : public vector<double>]. *)
Definition dvec : Type := list double.

(** [dvec::assert_compatible]. *)
Definition assert_compatible (a b : dvec) : result unit :=
  if negb (length a =? length b) then Throw mismatched_dvec_dimensions
  else Ok tt.

(** The accumulation loop of [dot] over [std::views::zip(a, b)]. *)
Definition dot_zip_loop (a b : dvec) : double :=
  fold_left (fun acc xy => add acc (mul (fst xy) (snd xy))) (combine a b) zero.

(** The accumulation loop of [dot] over the indices [0 .. a.size()-1],
    compiled when the library has no [zip].  Reading past the end of [b]
    never happens after [assert_compatible]; the default of [nth] stands
    for it. *)
Definition dot_index_loop (a b : dvec) : double :=
  fold_left (fun acc i => add acc (mul (nth i a nan) (nth i b nan)))
            (seq 0 (length a)) zero.

(** [dot], with the [zip] loop. *)
Definition dot (a b : dvec) : result double :=
  assert_compatible a b ;;;
  Ok (dot_zip_loop a b).

(** [dot], with the index loop. *)
Definition dot_nozip (a b : dvec) : result double :=
  assert_compatible a b ;;;
  Ok (dot_index_loop a b).

(** [dvec::norm]. *)
Definition norm (a : dvec) : result double :=
  d <- dot a a ;;
  Ok (sqrt d).

(** [theta]; [acos_in_domain] is the library's arc cosine (see
    [Double.acos]). *)
Definition theta (acos_in_domain : double -> double) (a b : dvec) : result double :=
  assert_compatible a b ;;;
  d <- dot a b ;;
  na <- norm a ;;
  nb <- norm b ;;
  Ok (acos acos_in_domain (div d (mul na nb))).

(** The defaulted [operator==]: the comparison of [vector<double>], equal
    sizes and [==] on every pair of elements. *)
Fixpoint dvec_eqb (a b : dvec) : bool :=
  match a, b with
  | [], [] => true
  | x :: a', y :: b' => eqb x y && dvec_eqb a' b'
  | _, _ => false
  end.

(** The sum the spec describes for [dot]: over all indices [i], in index
    order, of [a[i] * b[i]]. *)
Fixpoint spec_index_sum (a b : dvec) (n : nat) : double :=
  match n with
  | 0 => zero
  | S n' => add (spec_index_sum a b n') (mul (nth n' a nan) (nth n' b nan))
  end.


(* ================================================================== *)
(** ** Pair enumeration *)

(** The inner loop of [pairwise_elts]: [it2] runs over the elements after
    [it], each pushed with [*it] at the back of [pairs]. *)
Fixpoint pairwise_inner (x : dvec) (after : list dvec)
         (pairs : list (dvec * dvec)) : list (dvec * dvec) :=
  match after with
  | [] => pairs
  | y :: after' => pairwise_inner x after' (pairs ++ [(x, y)])
  end.

(** The outer loop of [pairwise_elts]: [it] runs over [vecs]. *)
Fixpoint pairwise_outer (vecs : list dvec)
         (pairs : list (dvec * dvec)) : list (dvec * dvec) :=
  match vecs with
  | [] => pairs
  | x :: after => pairwise_outer after (pairwise_inner x after pairs)
  end.

(** [pairwise_elts]. *)
Definition pairwise_elts (vecs : list dvec) : list (dvec * dvec) :=
  pairwise_outer vecs [].

(** The index pairs the spec describes: all [(i, j)] with [i < j < n], for
    [i = 0] every [j > 0] in increasing order, then [i = 1], and so on. *)
Definition index_pairs (n : nat) : list (nat * nat) :=
  flat_map (fun i => map (pair i) (seq (S i) (n - S i))) (seq 0 n).

(** The lexicographic order on index pairs. *)
Definition lex_lt (p q : nat * nat) : Prop :=
  fst p < fst q \/ (fst p = fst q /\ snd p < snd q).

(* ================================================================== *)
(** ** Ordering by angle *)

(** The comparator [theta_sort] hands to [std::sort]: the lambda
    [theta(x.first, x.second) < theta(y.first, y.second)]. *)
Definition theta_less (acos_in_domain : double -> double)
           (x y : dvec * dvec) : result bool :=
  tx <- theta acos_in_domain (fst x) (snd x) ;;
  ty <- theta acos_in_domain (fst y) (snd y) ;;
  Ok (ltb tx ty).

(** The type of [std::sort] on a sequence, with a comparator that may
    throw. *)
Definition sort_function : Type :=
  forall A : Type, (A -> A -> result bool) -> list A -> result (list A).

(** [theta_sort].  [std::sort] is the C++ library's and the program does
    not choose its algorithm: it is the parameter [std_sort]. *)
Definition theta_sort (std_sort : sort_function)
           (acos_in_domain : double -> double)
           (vecs : list dvec) : result (list (dvec * dvec)) :=
  std_sort _ (theta_less acos_in_domain) (pairwise_elts vecs).

(** What ISO C++ asks of the comparator ([alg.sorting]): on the values
    being sorted it returns without throwing and induces a strict weak
    ordering (irreflexive, transitive, with a transitive incomparability). *)
Definition strict_weak_ordering_on {A : Type}
           (comp : A -> A -> result bool) (l : list A) : Prop :=
  exists less : A -> A -> bool,
    (forall x y, In x l -> In y l -> comp x y = Ok (less x y)) /\
    (forall x, In x l -> less x x = false) /\
    (forall x y z, In x l -> In y l -> In z l ->
       less x y = true -> less y z = true -> less x z = true) /\
    (forall x y z, In x l -> In y l -> In z l ->
       less x y = false -> less y x = false ->
       less y z = false -> less z y = false ->
       less x z = false /\ less z x = false).

(** A sequence sorted with respect to [comp] ([alg.sorting]): no element
    compares less than an element before it. *)
Definition sorted_wrt {A : Type} (comp : A -> A -> result bool)
           (l : list A) : Prop :=
  StronglySorted (fun x y => comp y x = Ok false) l.

(** What ISO C++ promises of [std::sort] ([alg.sort]): with a comparator
    that is a strict weak ordering on the values, the result is a
    reordering of the input that is sorted with respect to it.  The
    relative order of equivalent elements is not promised. *)
Definition std_sort_contract (sort : sort_function) : Prop :=
  forall (A : Type) (comp : A -> A -> result bool) (l : list A),
    strict_weak_ordering_on comp l ->
    exists l', sort A comp l = Ok l' /\ Permutation l l' /\ sorted_wrt comp l'.

(** An insertion sort that puts an element after the elements equivalent
    to it: one algorithm [std::sort] may be. *)
Fixpoint insert_after_equals {A : Type} (comp : A -> A -> result bool)
         (x : A) (sorted : list A) : result (list A) :=
  match sorted with
  | [] => Ok [x]
  | y :: rest =>
      b <- comp x y ;;
      if b then Ok (x :: sorted)
      else r <- insert_after_equals comp x rest ;; Ok (y :: r)
  end.

Fixpoint insertion_sort_rec {A : Type} (comp : A -> A -> result bool)
         (l : list A) : result (list A) :=
  match l with
  | [] => Ok []
  | x :: l' => s <- insertion_sort_rec comp l' ;; insert_after_equals comp x s
  end.

Definition insertion_sort : sort_function :=
  fun A comp l => insertion_sort_rec comp l.

(** The angles of a sequence of pairs, as the [theta_sort] test case
    computes them. *)
Fixpoint angles (acos_in_domain : double -> double)
         (pairs : list (dvec * dvec)) : result (list double) :=
  match pairs with
  | [] => Ok []
  | p :: pairs' =>
      t <- theta acos_in_domain (fst p) (snd p) ;;
      ts <- angles acos_in_domain pairs' ;;
      Ok (t :: ts)
  end.

(** Non-decreasing from first to last: the test's [last <= curr] between
    every element and the next. *)
Definition non_decreasing (ts : list double) : Prop :=
  Sorted (fun x y => leb x y = true) ts.

(** The pairs of a sequence whose angle is [==] to [t]. *)
Definition angle_is (acos_in_domain : double -> double) (t : double)
           (p : dvec * dvec) : bool :=
  match theta acos_in_domain (fst p) (snd p) with
  | Ok x => eqb x t
  | Throw _ => false
  end.

(** Stability: for every angle, the pairs of that angle come out in the
    order they went in. *)
Definition ties_keep_order (acos_in_domain : double -> double)
           (pairs out : list (dvec * dvec)) : Prop :=
  forall t, filter (angle_is acos_in_domain t) out
            = filter (angle_is acos_in_domain t) pairs.

(** All vectors of a sequence have the dimension [n]. *)
Definition same_dimension (n : nat) (vecs : list dvec) : Prop :=
  Forall (fun v => length v = n) vecs.

(* ================================================================== *)
(** ** Text streams *)

(** The characters a stream still holds. *)
Definition chars : Type := list ascii.

Definition text (s : string) : chars := list_ascii_of_string s.

Definition newline : ascii := "010"%char.

(** One [std::getline(input, line)]: the characters up to the next
    newline, which is consumed and dropped, or up to the end of the
    stream. *)
Fixpoint until_newline (input : chars) : chars * chars :=
  match input with
  | [] => ([], [])
  | c :: input' =>
      if Ascii.eqb c newline then ([], input')
      else let (line, rest) := until_newline input' in (c :: line, rest)
  end.

(** [std::getline] fails, and the loop of [ingest_dvecs] ends, when the
    stream holds nothing more. *)
Definition getline (input : chars) : option (chars * chars) :=
  match input with
  | [] => None
  | _ :: _ => Some (until_newline input)
  end.

(** The lines the successive calls of [std::getline] yield. *)
Fixpoint getlines (input : chars) : list chars :=
  match input with
  | [] => []
  | c :: input' =>
      if Ascii.eqb c newline then [] :: getlines input'
      else match getlines input' with
           | [] => [[c]]
           | line :: lines => (c :: line) :: lines
           end
  end.

(** [std::isspace] in the classic locale: space, and the controls from
    horizontal tab to carriage return. *)
Definition isspace (c : ascii) : bool :=
  let n := nat_of_ascii c in
  (n =? 32) || ((9 <=? n) && (n <=? 13)).

(** The stream's sentry: leading white space is skipped. *)
Fixpoint skipws (s : chars) : chars :=
  match s with
  | [] => []
  | c :: s' => if isspace c then skipws s' else s
  end.

Definition is_digit (c : ascii) : bool :=
  let n := nat_of_ascii c in (48 <=? n) && (n <=? 57).

Definition is_sign (c : ascii) : bool :=
  Ascii.eqb c "+" || Ascii.eqb c "-".

Definition is_exp (c : ascii) : bool :=
  Ascii.eqb c "e" || Ascii.eqb c "E".

Definition is_point (c : ascii) : bool := Ascii.eqb c ".".

(** Modelled from the C++ library ([num_get::do_get] for [double], as
    libstdc++ implements [facet.num.get.virtuals] in the classic locale):
    the main loop of the accumulation.  It takes digits, one decimal point
    before any exponent, and one exponent mark after a digit, with the sign
    that may follow the mark; it stops at the first character that fits
    nowhere.  The result is the accumulated text and the rest of the
    stream. *)
Fixpoint extract_main (found_mantissa found_dec found_sci : bool)
         (s : chars) : chars * chars :=
  match s with
  | [] => ([], [])
  | c :: s' =>
      if is_digit c then
        let (x, r) := extract_main true found_dec found_sci s' in (c :: x, r)
      else if is_point c && negb found_dec && negb found_sci then
        let (x, r) := extract_main found_mantissa true found_sci s' in
        ("."%char :: x, r)
      else if is_exp c && negb found_sci && found_mantissa then
        match s' with
        | [] => (["e"%char], [])
        | c' :: s'' =>
            if is_sign c' then
              let (x, r) := extract_main found_mantissa found_dec true s'' in
              ("e"%char :: c' :: x, r)
            else
              let (x, r) := extract_main found_mantissa found_dec true s' in
              ("e"%char :: x, r)
        end
      else ([], s)
  end.

(** The loop over leading zeros: they are dropped. *)
Fixpoint skip_zeros (s : chars) : chars :=
  match s with
  | [] => []
  | c :: s' => if Ascii.eqb c "0" then skip_zeros s' else s
  end.

(** The optional sign at the start of a number. *)
Definition extract_sign (s : chars) : chars * chars :=
  match s with
  | c :: s' => if is_sign c then ([c], s') else ([], s)
  | [] => ([], [])
  end.

(** The leading zeros: whether there is one, and the text after them. *)
Definition extract_zeros (s : chars) : bool * chars :=
  match s with
  | c :: _ => if Ascii.eqb c "0" then (true, skip_zeros s) else (false, s)
  | [] => (false, [])
  end.

(** Modelled from the C++ library (libstdc++'s [_M_extract_float]): an
    optional sign, the leading zeros (accumulated as one ['0']), then the
    main loop. *)
Definition extract_float (s : chars) : chars * chars :=
  let '(sign, s1) := extract_sign s in
  let '(found_mantissa, s2) := extract_zeros s1 in
  let '(x, rest) := extract_main found_mantissa false false s2 in
  (sign ++ (if found_mantissa then ["0"%char] else []) ++ x, rest).

(** The longest prefix of decimal digits, and what follows it. *)
Fixpoint span_digits (s : chars) : chars * chars :=
  match s with
  | [] => ([], [])
  | c :: s' =>
      if is_digit c then let (d, r) := span_digits s' in (c :: d, r)
      else ([], s)
  end.

Definition digit_value (c : ascii) : Z := Z.of_nat (nat_of_ascii c - 48).

Definition decimal_value (digits : chars) : Z :=
  fold_left (fun acc c => 10 * acc + digit_value c)%Z digits 0%Z.

(** The binary64 number nearest to [(-1)^neg * m * 10^e] (ties to even),
    which is what [strtod] returns for a decimal text. *)
Definition decimal_to_double (neg : bool) (m e : Z) : double :=
  match m with
  | Zpos p =>
      if (0 <=? e)%Z then
        binary_normalize prec emax
          (if neg then Z.opp (m * 10 ^ e) else (m * 10 ^ e))%Z 0 false
      else
        div (S754_finite neg p 0)
            (S754_finite false (Z.to_pos (10 ^ (- e))) 0)
  | _ => S754_zero neg
  end.

(** Modelled from ISO C ([strtod], 7.22.1.3) on the decimal texts
    [extract_float] accumulates: a sign, digits with at most one point and
    at least one digit, and an exponent part that counts only when it has
    a digit.  The result is the value and the text left unread. *)
Definition strtod (s : chars) : option (double * chars) :=
  let '(neg, s0) :=
    match s with
    | c :: s' => if is_sign c then (Ascii.eqb c "-", s') else (false, s)
    | [] => (false, [])
    end in
  let '(ip, s1) := span_digits s0 in
  let '(fp, s2) :=
    match s1 with
    | c :: s' => if is_point c then span_digits s' else ([], s1)
    | [] => ([], [])
    end in
  match ip ++ fp with
  | [] => None
  | _ :: _ =>
      let m := decimal_value (ip ++ fp) in
      let '(e, s3) :=
        match s2 with
        | c :: s' =>
            if is_exp c then
              let '(eneg, s'') :=
                match s' with
                | c' :: t => if is_sign c' then (Ascii.eqb c' "-", t) else (false, s')
                | [] => (false, [])
                end in
              match span_digits s'' with
              | ([], _) => (0%Z, s2)
              | (ed, r) =>
                  ((if eneg then Z.opp (decimal_value ed) else decimal_value ed), r)
              end
            else (0%Z, s2)
        | [] => (0%Z, [])
        end in
      Some (decimal_to_double neg m (e - Z.of_nat (length fp)), s3)
  end.

(** Modelled from the C++ library (libstdc++'s [__convert_to_v] for
    [double]): the conversion fails when [strtod] reads nothing or leaves
    something unread, and when the value overflows to an infinity. *)
Definition convert_to_v (xtrc : chars) : option double :=
  match strtod xtrc with
  | Some (v, []) =>
      match v with
      | S754_infinity _ => None
      | _ => Some v
      end
  | _ => None
  end.

(** One [iss >> value] of the [istream_iterator<double>]: white space is
    skipped, a number is accumulated and converted.  [None] is the failed
    extraction that ends the iteration. *)
Definition extract_double (s : chars) : option (double * chars) :=
  match skipws s with
  | [] => None
  | s' =>
      let (xtrc, rest) := extract_float s' in
      match convert_to_v xtrc with
      | Some v => Some (v, rest)
      | None => None
      end
  end.

(** The range [iter, end) of [istream_iterator<double>]: the values
    extracted until the first failure.  Every extraction that succeeds
    consumes a character, so [fuel] above the length of the text is never
    used up (see [read_doubles_fuel]). *)
Fixpoint read_doubles (fuel : nat) (s : chars) : dvec :=
  match fuel with
  | 0 => []
  | S fuel' =>
      match extract_double s with
      | Some (v, rest) => v :: read_doubles fuel' rest
      | None => []
      end
  end.

(** The body of the loop of [ingest_dvecs] up to the dimension check: the
    vector of one line. *)
Definition parse_line (line : chars) : dvec :=
  read_doubles (S (length line)) line.

(** The loop of [ingest_dvecs] over the lines of the stream, with the
    vector [output] built so far. *)
Fixpoint ingest_loop (lines : list chars) (output : list dvec)
  : result (list dvec) :=
  match lines with
  | [] => Ok output
  | line :: lines' =>
      let v := parse_line line in
      match output with
      | first :: _ =>
          if negb (length first =? length v)
          then Throw mismatched_input_vector_dimensions
          else ingest_loop lines' (output ++ [v])
      | [] => ingest_loop lines' (output ++ [v])
      end
  end.

(** [ingest_dvecs]. *)
Definition ingest_dvecs (input : chars) : result (list dvec) :=
  ingest_loop (getlines input) [].

(* ================================================================== *)
(** ** Rendering *)

Definition digit_char (d : Z) : ascii := ascii_of_nat (48 + Z.to_nat d).

(** The [k] low decimal digits of [n], most significant first. *)
Fixpoint decimal_digits (k : nat) (n : Z) : chars :=
  match k with
  | 0 => []
  | S k' => decimal_digits k' (n / 10) ++ [digit_char (n mod 10)]
  end.

Fixpoint drop_leading_zeros (keep : nat) (s : chars) : chars :=
  match s with
  | c :: s' =>
      if Ascii.eqb c "0" && (keep <? length s) then drop_leading_zeros keep s'
      else s
  | [] => []
  end.

Definition drop_trailing_zeros (s : chars) : chars :=
  rev (drop_leading_zeros 0 (rev s)).

(** The decimal exponent [x] of the positive rational [n / d]:
    [10^x <= n / d < 10^(x+1)].  Each step gains a factor of ten, so the
    number of binary digits of [n] and [d] is fuel enough. *)
Fixpoint exponent_up (fuel : nat) (n d x : Z) : Z :=
  match fuel with
  | 0 => x
  | S fuel' =>
      if (d * 10 <=? n)%Z then exponent_up fuel' n (d * 10)%Z (x + 1)%Z else x
  end.

Fixpoint exponent_down (fuel : nat) (n d x : Z) : Z :=
  match fuel with
  | 0 => x
  | S fuel' =>
      if (n <? d)%Z then exponent_down fuel' (n * 10)%Z d (x - 1)%Z else x
  end.

Definition decimal_exponent (n d : Z) : Z :=
  let fuel := Z.to_nat (Z.log2 n + Z.log2 d + 2) in
  if (d <=? n)%Z then exponent_up fuel n d 0 else exponent_down fuel n d 0.

(** [n / d] rounded to an integer, ties to even. *)
Definition round_half_even (n d : Z) : Z :=
  let q := (n / d)%Z in
  let r := (n mod d)%Z in
  match (2 * r ?= d)%Z with
  | Lt => q
  | Gt => (q + 1)%Z
  | Eq => if Z.even q then q else (q + 1)%Z
  end.

(** The precision of a stream nobody has changed. *)
Definition default_precision : nat := 6.

(** Modelled from ISO C ([fprintf], 7.21.6.1, conversion [%g] with
    precision 6): the positive rational [n / d] is rounded to six
    significant digits [r * 10^(x-5)]; when [-4 <= x < 6] it is written in
    fixed notation and otherwise with an exponent of at least two digits;
    trailing zeros of the fraction are removed, and a point nothing follows
    is removed too. *)
Definition format_g_positive (n d : Z) : chars :=
  let p := Z.of_nat default_precision in
  let x0 := decimal_exponent n d in
  let shift := (p - 1 - x0)%Z in
  let r0 := if (0 <=? shift)%Z then round_half_even (n * 10 ^ shift) d
            else round_half_even n (d * 10 ^ (- shift)) in
  let '(x, r) := if (r0 =? 10 ^ p)%Z then ((x0 + 1)%Z, (10 ^ (p - 1))%Z)
                 else (x0, r0) in
  let digits := decimal_digits default_precision r in
  if ((-4 <=? x) && (x <? p))%Z then
    if (0 <=? x)%Z then
      let ip := firstn (S (Z.to_nat x)) digits in
      let fp := drop_trailing_zeros (skipn (S (Z.to_nat x)) digits) in
      match fp with
      | [] => ip
      | _ :: _ => ip ++ "."%char :: fp
      end
    else
      text "0." ++ repeat "0"%char (Z.to_nat (- x - 1))
                ++ drop_trailing_zeros digits
  else
    let fp := drop_trailing_zeros (skipn 1 digits) in
    let mant := match fp with
                | [] => firstn 1 digits
                | _ :: _ => firstn 1 digits ++ "."%char :: fp
                end in
    let ax := Z.abs x in
    mant ++ "e"%char :: (if (x <? 0)%Z then "-"%char else "+"%char)
         :: drop_leading_zeros 2
              (decimal_digits (2 + Z.to_nat (Z.log2 ax)) ax).

(** Modelled from the C++ library ([num_put::do_put] for [double],
    [facet.num.put.virtuals]): on a stream in its initial state (no
    [floatfield] flag, precision 6) a [double] is written as [printf]
    writes it with [%g]. *)
Definition format_double (x : double) : chars :=
  match x with
  | S754_nan => text "nan"
  | S754_infinity s => (if s then text "-" else []) ++ text "inf"
  | S754_zero s => (if s then text "-" else []) ++ text "0"
  | S754_finite s m e =>
      (if s then text "-" else []) ++
      (if (0 <=? e)%Z then format_g_positive (Zpos m * 2 ^ e) 1
       else format_g_positive (Zpos m) (2 ^ (- e)))
  end.

(** The loop of [operator<<] over a vector that is not empty: every
    element but the last is followed by [", "], the last by ["]"]. *)
Fixpoint render_elements (self : dvec) : chars :=
  match self with
  | [] => []
  | [last] => format_double last ++ text "]"
  | x :: rest => format_double x ++ text ", " ++ render_elements rest
  end.

(** [operator<<] for [dvec], on a stream in its initial state. *)
Definition render (self : dvec) : chars :=
  if length self =? 0 then text "[]"
  else text "[" ++ render_elements self.

(** Ignoring the commas and brackets of a rendered vector: they are
    removed from the text. *)
Definition is_bracket_or_comma (c : ascii) : bool :=
  Ascii.eqb c "[" || Ascii.eqb c "]" || Ascii.eqb c ",".

Definition ignore_brackets_commas (s : chars) : chars :=
  filter (fun c => negb (is_bracket_or_comma c)) s.

(** An element whose rendering reads back as itself: the extraction takes
    the whole text and converts it to the same value. *)
Definition identical (x y : double) : bool :=
  match x, y with
  | S754_zero s, S754_zero s' => Bool.eqb s s'
  | S754_infinity s, S754_infinity s' => Bool.eqb s s'
  | S754_nan, S754_nan => true
  | S754_finite s m e, S754_finite s' m' e' =>
      Bool.eqb s s' && Pos.eqb m m' && Z.eqb e e'
  | _, _ => false
  end.

Definition reads_back (x : double) : bool :=
  match extract_float (format_double x) with
  | (xtrc, []) =>
      match convert_to_v xtrc with
      | Some y => identical x y
      | None => false
      end
  | _ => false
  end.

(* ================================================================== *)
(** ** Notions used in the statements *)

(** A number that is neither NaN nor negative: [+0], a positive finite
    number or [+inf]. *)
Definition nonneg_number (x : double) : Prop :=
  match x with
  | S754_zero s | S754_infinity s | S754_finite s _ _ => s = false
  | S754_nan => False
  end.

(** The quotient [theta(v, v)] hands to [std::acos]. *)
Definition self_quotient (v : dvec) : double :=
  div (dot_zip_loop v v)
      (mul (sqrt (dot_zip_loop v v)) (sqrt (dot_zip_loop v v))).

(** The quotient [theta(a, b)] hands to [std::acos] for two vectors of
    equal length: the dot product over the product of the two norms. *)
Definition quotient (a b : dvec) : double :=
  div (dot_zip_loop a b)
      (mul (sqrt (dot_zip_loop a a)) (sqrt (dot_zip_loop b b))).

(** A norm that is a positive finite number: not zero, not an infinity,
    not NaN. *)
Definition positive_norm (v : dvec) : bool :=
  match norm v with
  | Ok (S754_finite false _ _) => true
  | _ => false
  end.

(** Two vectors of the same direction, with norms that are not zero. *)
Definition ones : dvec := [one; one; one].
Definition twos : dvec := [of_Z 2; of_Z 2; of_Z 2].

(** The pairs of [pairwise_elts], by recursion on the sequence: the
    first vector with each later one, then the pairs of the rest. *)
Fixpoint all_pairs (vecs : list dvec) : list (dvec * dvec) :=
  match vecs with
  | [] => []
  | x :: after => map (pair x) after ++ all_pairs after
  end.

(** The vectors at an index pair. *)
Definition at_indices (vecs : list dvec) (ij : nat * nat) : dvec * dvec :=
  (nth (fst ij) vecs [], nth (snd ij) vecs []).

Definition shift_indices (ij : nat * nat) : nat * nat :=
  (S (fst ij), S (snd ij)).

(** With respect to a strict order [less]: [x] may stand before [y]. *)
Definition not_above {A : Type} (less : A -> A -> bool) (x y : A) : Prop :=
  less y x = false.

(** The angle of a pair, NaN standing for a thrown exception. *)
Definition angle_of (acos_in_domain : double -> double)
           (p : dvec * dvec) : double :=
  match theta acos_in_domain (fst p) (snd p) with
  | Ok t => t
  | Throw _ => nan
  end.

(** An arc cosine inside the domain that is never asked: the inputs it is
    used with only reach the values ISO C fixes. *)
Definition unused_acos : double -> double := fun _ => nan.

(** Inputs of the examples below. *)
Definition parallel_vectors : list dvec :=
  [[of_Z 3; of_Z 4]; [of_Z 6; of_Z 8]; [of_Z 9; of_Z 12]].

Definition zero_one_two : list dvec := [[zero]; [one]; [of_Z 2]].

Definition one_to_seven : list dvec :=
  [[of_Z 1]; [of_Z 2]; [of_Z 3]; [of_Z 4]; [of_Z 5]; [of_Z 6]; [of_Z 7]].

Definition no_nan_angle (acos_in_domain : double -> double)
           (pairs : list (dvec * dvec)) : bool :=
  forallb (fun p => negb (is_nan (angle_of acos_in_domain p))) pairs.

(** The dimension of the vector of a line. *)
Definition dimension_of (line : chars) : nat := length (parse_line line).

(** A character a number can start with. *)
Definition starts_number (c : ascii) : bool :=
  is_digit c || is_sign c || is_point c.

(** The characters the extraction of a number can consume. *)
Definition number_char (c : ascii) : bool :=
  is_digit c || is_point c || is_exp c || is_sign c.

(** The text of a rendered vector once brackets and commas are ignored:
    the renderings of the elements, one space between two of them. *)
Fixpoint joined (v : dvec) : chars :=
  match v with
  | [] => []
  | [last] => format_double last
  | x :: rest => format_double x ++ " "%char :: joined rest
  end.

(** The numbers 0.5, -2.5 and 3000000. *)
Definition half : double := S754_finite false 4503599627370496 (-53).
Definition minus_two_and_half : double :=
  S754_finite true 5629499534213120 (-51).
Definition readable_vector : dvec :=
  [of_Z 1; half; minus_two_and_half; of_Z 3000000; zero].

(** The integers [z], [z + 1], ... ([count] of them) and their opposites
    read back from their renderings. *)
Fixpoint integers_read_back (count : nat) (z : Z) : bool :=
  match count with
  | 0 => true
  | S count' =>
      reads_back (of_Z z) && reads_back (of_Z (- z))
      && integers_read_back count' (z + 1)
  end.

(* ================================================================== *)
(** ** Notions used in the further properties *)

(** One of the two zeros. *)
Definition is_zero (x : double) : bool :=
  match x with S754_zero _ => true | _ => false end.

(** A zero or a finite number: neither NaN nor an infinity. *)
Definition is_finite (x : double) : bool :=
  match x with S754_zero _ | S754_finite _ _ _ => true | _ => false end.

Definition zero_or_nan (x : double) : Prop :=
  match x with S754_zero _ | S754_nan => True | _ => False end.

(* ================================================================== *)
(** ** The program *)

(** The texts of a list, [sep] between two of them. *)
Fixpoint join (sep : chars) (texts : list chars) : chars :=
  match texts with
  | [] => []
  | [t] => t
  | t :: rest => t ++ sep ++ join sep rest
  end.

(** The decimal digits of a natural number, without leading zeros (one
    digit for zero). *)
Definition decimal_of (n : Z) : chars :=
  drop_leading_zeros 1 (decimal_digits (S (Z.to_nat (Z.log2 n))) n).

(** Modelled from ISO C ([fprintf], 7.21.6.1, conversion [%f] with
    precision 6): the positive rational [n / d] rounded to six decimals,
    ties to even, written with its integer part, a point and the six
    decimals. *)
Definition format_f_positive (n d : Z) : chars :=
  let r := round_half_even (n * 10 ^ 6) d in
  decimal_of (r / 10 ^ 6) ++ "."%char :: decimal_digits 6 (r mod 10 ^ 6).

(** Modelled from the C++ library: a [double] written on a stream after
    [std::fixed] ([facet.num.put.virtuals]) and a [double] formatted with
    [{:f}] ([format.string.std]) are both written as [printf] writes them
    with [%f] and precision 6. *)
Definition format_fixed (x : double) : chars :=
  match x with
  | S754_nan => text "nan"
  | S754_infinity s => (if s then text "-" else []) ++ text "inf"
  | S754_zero s => (if s then text "-" else []) ++ text "0.000000"
  | S754_finite s m e =>
      (if s then text "-" else []) ++
      (if (0 <=? e)%Z then format_f_positive (Zpos m * 2 ^ e) 1
       else format_f_positive (Zpos m) (2 ^ (- e)))
  end.

(** The exception of [std::formatter<dvec>::parse]; a
    [std::format_error] is a [std::runtime_error]. *)
Definition invalid_format_args : exception :=
  runtime_error "invalid format args".

(** [std::formatter<dvec>::parse]: [ctx] is the format string from the
    start of the specification on; the result is the position reached,
    which is the start. *)
Definition formatter_parse (ctx : chars) : result chars :=
  match ctx with
  | [] => Ok ctx
  | c :: _ =>
      if negb (Ascii.eqb c "}") then Throw invalid_format_args
      else Ok ctx
  end.

(** [std::formatter<dvec>::format]: the vector is written to a string
    stream of its own, and that text is copied to the output. *)
Definition formatter_format (v : dvec) (out : chars) : chars :=
  out ++ render v.

(** The letter theta of the output lines, in UTF-8. *)
Definition theta_letter : chars :=
  map ascii_of_nat [240; 157; 156; 131].

(** What a run of the program leaves: the text written to [std::cout],
    and the value [main] returns or the exception that leaves it. *)
Record run : Type := { written : chars; outcome : result Z }.

(** One turn of the output loop of [main] with [std::format_to] and the
    format string ["\xF0\x9D\x9C\x83({}, {}) = {:f}\n"]: the arguments are
    evaluated first, then the pieces of the format string are written in
    turn, each vector after [formatter_parse] has seen the rest of the
    format string from its field on. *)
Definition format_line (acos_in_domain : double -> double)
           (out : chars) (p : dvec * dvec) : run :=
  match theta acos_in_domain (fst p) (snd p) with
  | Throw e => {| written := out; outcome := Throw e |}
  | Ok t =>
      let out1 := out ++ theta_letter ++ text "(" in
      match formatter_parse (text "}, {}) = {:f}" ++ [newline]) with
      | Throw e => {| written := out1; outcome := Throw e |}
      | Ok _ =>
          let out2 := formatter_format (fst p) out1 ++ text ", " in
          match formatter_parse (text "}) = {:f}" ++ [newline]) with
          | Throw e => {| written := out2; outcome := Throw e |}
          | Ok _ =>
              {| written := formatter_format (snd p) out2 ++ text ") = "
                              ++ format_fixed t ++ [newline];
                 outcome := Ok 0%Z |}
          end
      end
  end.

(** One turn of the output loop of [main] with [operator<<]: the operands
    are written from left to right, so the two vectors are on the stream
    when [theta] is evaluated. *)
Definition stream_line (acos_in_domain : double -> double)
           (out : chars) (p : dvec * dvec) : run :=
  let out1 := out ++ theta_letter ++ text "(" ++ render (fst p)
                  ++ text ", " ++ render (snd p) ++ text ") = " in
  match theta acos_in_domain (fst p) (snd p) with
  | Throw e => {| written := out1; outcome := Throw e |}
  | Ok t =>
      {| written := out1 ++ format_fixed t ++ [newline];
         outcome := Ok 0%Z |}
  end.

(** The output loop of [main] over the sorted pairs. *)
Fixpoint output_loop (line : chars -> dvec * dvec -> run)
         (out : chars) (pairs : list (dvec * dvec)) : run :=
  match pairs with
  | [] => {| written := out; outcome := Ok 0%Z |}
  | p :: pairs' =>
      match outcome (line out p) with
      | Ok _ => output_loop line (written (line out p)) pairs'
      | Throw e => line out p
      end
  end.

Definition DEFAULT_FNAME : string := "test.txt".

(** The file [main] reads: [argv[1]] when [argc == 2], the default name
    otherwise. *)
Definition input_name (argv : list string) : string :=
  if length argv =? 2 then nth 1 argv DEFAULT_FNAME else DEFAULT_FNAME.

(** [main].  [open_file] is the file system: the text of a file that can
    be opened.  [have_format] tells which of the two compilations of the
    output loop is in the program. *)
Definition main (have_format : bool)
           (open_file : string -> option chars)
           (std_sort : sort_function)
           (acos_in_domain : double -> double)
           (argv : list string) : run :=
  match open_file (input_name argv) with
  | None =>
      {| written := []; outcome := Throw (runtime_error "no input file") |}
  | Some ifile =>
      match ingest_dvecs ifile with
      | Throw e => {| written := []; outcome := Throw e |}
      | Ok vecs =>
          match theta_sort std_sort acos_in_domain vecs with
          | Throw e => {| written := []; outcome := Throw e |}
          | Ok vecpairs =>
              output_loop
                (if have_format then format_line acos_in_domain
                 else stream_line acos_in_domain)
                [] vecpairs
          end
      end
  end.

(** The line of the output for a pair. *)
Definition output_line (acos_in_domain : double -> double)
           (p : dvec * dvec) : chars :=
  theta_letter ++ text "(" ++ render (fst p) ++ text ", "
               ++ render (snd p) ++ text ") = "
               ++ format_fixed (angle_of acos_in_domain p) ++ [newline].

(** A file system with one file, [test.txt], that holds three lines. *)
Definition example_files (name : string) : option chars :=
  if String.eqb name "test.txt" then Some (text "3 4
6 8
9 12")
  else None.

(** Four vectors of dimension two, the first of them the zero vector. *)
Definition with_zero_vector : list dvec :=
  [[zero; zero]; [one; zero]; [of_Z 2; zero]; [zero; one]].

(* ================================================================== *)
(** * Properties of the vector operations *)

Lemma assert_compatible_ok (a b : dvec) :
  length a = length b -> assert_compatible a b = Ok tt.
Proof.
  intros H. unfold assert_compatible.
  rewrite H, Nat.eqb_refl. reflexivity.
Qed.

Lemma assert_compatible_throw (a b : dvec) :
  length a <> length b ->
  assert_compatible a b = Throw mismatched_dvec_dimensions.
Proof.
  intros H. unfold assert_compatible.
  apply Nat.eqb_neq in H. rewrite H. reflexivity.
Qed.

Lemma assert_compatible_sym (a b : dvec) :
  assert_compatible a b = assert_compatible b a.
Proof.
  unfold assert_compatible. now rewrite Nat.eqb_sym.
Qed.

(** ** The two loops of [dot] *)

Lemma index_loop_is_sum (a b : dvec) (n : nat) :
  fold_left (fun acc i => add acc (mul (nth i a nan) (nth i b nan)))
            (seq 0 n) zero
  = spec_index_sum a b n.
Proof.
  induction n as [|n IH]; [reflexivity|].
  rewrite seq_S, fold_left_app, IH. reflexivity.
Qed.

Lemma zip_loop_from (a b pa pb : dvec) (acc : double) :
  length pa = length pb ->
  length a = length b ->
  fold_left (fun acc xy => add acc (mul (fst xy) (snd xy))) (combine a b) acc
  = fold_left (fun acc i => add acc (mul (nth i (pa ++ a) nan)
                                          (nth i (pb ++ b) nan)))
              (seq (length pa) (length a)) acc.
Proof.
  revert b pa pb acc.
  induction a as [|x a IH]; intros [|y b] pa pb acc Hp Hl;
    try discriminate; [reflexivity|].
  cbn [combine fold_left length seq fst snd].
  rewrite (nth_middle pa a x nan).
  replace (nth (length pa) (pb ++ y :: b) nan) with y
    by (rewrite Hp; symmetry; apply nth_middle).
  injection Hl as Hl.
  rewrite (IH b (pa ++ [x]) (pb ++ [y])); [| now rewrite !length_app, Hp | exact Hl].
  rewrite <- !app_assoc. cbn [app].
  rewrite length_app, Nat.add_1_r. reflexivity.
Qed.

Lemma zip_loop_is_sum (a b : dvec) :
  length a = length b ->
  dot_zip_loop a b = spec_index_sum a b (length a).
Proof.
  intros H. unfold dot_zip_loop.
  rewrite (zip_loop_from a b [] [] zero eq_refl H).
  apply index_loop_is_sum.
Qed.

(** The two compilations of [dot] agree on every pair of vectors. *)
Lemma dot_nozip_dot (a b : dvec) : dot_nozip a b = dot a b.
Proof.
  unfold dot_nozip, dot, assert_compatible.
  destruct (length a =? length b) eqn:E; cbn; [|reflexivity].
  apply Nat.eqb_eq in E.
  unfold dot_index_loop. rewrite index_loop_is_sum, zip_loop_is_sum by exact E.
  reflexivity.
Qed.

(** C5.  For vectors of different lengths [dot] and [theta] both throw the
    dimension-mismatch error (nothing is truncated or padded); for vectors
    of equal length [dot] returns the sum over all indices [i], in index
    order, of [a[i] * b[i]], with either loop. *)
Theorem dot_theta_dimension_contract
        (acos_in_domain : double -> double) (a b : dvec) :
  (length a <> length b ->
     dot a b = Throw mismatched_dvec_dimensions /\
     dot_nozip a b = Throw mismatched_dvec_dimensions /\
     theta acos_in_domain a b = Throw mismatched_dvec_dimensions /\
     DimensionMismatch mismatched_dvec_dimensions) /\
  (length a = length b ->
     dot a b = Ok (spec_index_sum a b (length a)) /\
     dot_nozip a b = Ok (spec_index_sum a b (length a))).
Proof.
  split; intros H.
  - assert (D : dot a b = Throw mismatched_dvec_dimensions).
    { unfold dot. now rewrite assert_compatible_throw. }
    repeat split.
    + exact D.
    + now rewrite dot_nozip_dot.
    + unfold theta. now rewrite assert_compatible_throw.
    + now left.
  - assert (D : dot a b = Ok (spec_index_sum a b (length a))).
    { unfold dot. rewrite assert_compatible_ok by exact H. cbn.
      now rewrite zip_loop_is_sum. }
    split; [exact D | now rewrite dot_nozip_dot].
Qed.

Lemma dot_theta_dimension_contract_witness :
  (dot [of_Z 1; of_Z 2] [of_Z 3] = Throw mismatched_dvec_dimensions /\
   theta (fun x => x) [of_Z 1; of_Z 2] [of_Z 3]
     = Throw mismatched_dvec_dimensions) /\
  dot [of_Z 1; of_Z 2] [of_Z 3; of_Z 4] = Ok (of_Z 11).
Proof.
  split.
  - destruct (dot_theta_dimension_contract (fun x => x)
                [of_Z 1; of_Z 2] [of_Z 3]) as [H _].
    destruct H as (D & _ & T & _); [cbn; lia|]. split; assumption.
  - destruct (dot_theta_dimension_contract (fun x => x)
                [of_Z 1; of_Z 2] [of_Z 3; of_Z 4]) as [_ H].
    destruct H as (D & _); [reflexivity|]. exact D.
Defined.

(** ** Signs through rounding *)

Lemma iter_pos_invariant {A : Type} (P : A -> Prop) (f : A -> A) :
  (forall x, P x -> P (f x)) ->
  forall (n : positive) (x : A), P x -> P (iter_pos f n x).
Proof.
  intros Hf. induction n as [n IH|n IH|]; intros x Hx; cbn.
  - apply IH, IH, Hf, Hx.
  - apply IH, IH, Hx.
  - apply Hf, Hx.
Qed.

Lemma shr_1_nonneg (mrs : shr_record) :
  (0 <= shr_m mrs)%Z -> (0 <= shr_m (shr_1 mrs))%Z.
Proof.
  destruct mrs as [m r s]. cbn.
  destruct m as [|p|p]; [cbn; lia| |lia].
  destruct p; cbn; lia.
Qed.

Lemma shr_fexp_nonneg (m e : Z) (l : location) :
  (0 <= m)%Z -> (0 <= shr_m (fst (shr_fexp prec emax m e l)))%Z.
Proof.
  intros Hm. unfold shr_fexp, shr.
  assert (H0 : (0 <= shr_m (shr_record_of_loc m l))%Z).
  { destruct l as [|[]]; exact Hm. }
  destruct (fexp prec emax (Zdigits2 m + e) - e)%Z; cbn [fst]; try exact H0.
  apply (iter_pos_invariant (fun mrs => (0 <= shr_m mrs)%Z)); [|exact H0].
  apply shr_1_nonneg.
Qed.

Lemma round_nearest_even_nonneg (m : Z) (l : location) :
  (0 <= m)%Z -> (0 <= round_nearest_even m l)%Z.
Proof.
  intros Hm. destruct l as [|[]]; cbn; try lia.
  destruct (Z.even m); lia.
Qed.

(** Rounding a non-negative mantissa gives a zero, a finite number or an
    infinity of the sign asked for, never a NaN. *)
Lemma binary_round_aux_sign (s : bool) (m e : Z) (l : location) :
  (0 <= m)%Z ->
  match binary_round_aux prec emax s m e l with
  | S754_zero s' | S754_infinity s' | S754_finite s' _ _ => s' = s
  | S754_nan => False
  end.
Proof.
  intros Hm. unfold binary_round_aux.
  pose proof (shr_fexp_nonneg m e l Hm) as H1.
  destruct (shr_fexp prec emax m e l) as [mrs' e'] eqn:E1. cbn [fst] in H1.
  pose proof (shr_fexp_nonneg
                (round_nearest_even (shr_m mrs') (loc_of_shr_record mrs'))
                e' loc_Exact
                (round_nearest_even_nonneg _ _ H1)) as H2.
  destruct (shr_fexp prec emax _ e' loc_Exact) as [mrs'' e''] eqn:E2.
  cbn [fst] in H2.
  destruct (shr_m mrs'') as [|p|p]; [reflexivity| |lia].
  destruct (e'' <=? emax - prec)%Z; reflexivity.
Qed.

Lemma mul_self_nonneg (x : double) :
  is_nan x = false -> nonneg_number (mul x x).
Proof.
  destruct x as [s|s| |s m e]; cbn; try discriminate; intros _.
  - apply xorb_nilpotent.
  - apply xorb_nilpotent.
  - pose proof (binary_round_aux_sign (xorb s s) (Zpos (m * m)) (e + e)
                                      loc_Exact ltac:(lia)) as H.
    unfold nonneg_number.
    destruct (binary_round_aux _ _ _ _ _ _); try rewrite H;
      try apply xorb_nilpotent; exact H.
Qed.

Lemma add_nonneg (x y : double) :
  nonneg_number x -> nonneg_number y -> nonneg_number (add x y).
Proof.
  destruct x as [sx|sx| |sx mx ex]; destruct y as [sy|sy| |sy my ey];
    cbn; intros Hx Hy; subst; try reflexivity; try contradiction.
  cbn [cond_Zopp]. cbn.
  unfold binary_round.
  destruct (shl_align _ _ _) as [mz ez].
  pose proof (binary_round_aux_sign false (Zpos mz) ez loc_Exact
                                    ltac:(lia)) as H.
  unfold nonneg_number.
  destruct (binary_round_aux _ _ _ _ _ _); exact H.
Qed.

Lemma sqrtrem_fst_nonneg (m : Z) : (0 <= fst (Z.sqrtrem m))%Z.
Proof.
  pose proof (Z.sqrtrem_sqrt m) as H. rewrite H. apply Z.sqrt_nonneg.
Qed.

Lemma sqrt_nonneg (x : double) :
  nonneg_number x -> nonneg_number (sqrt x).
Proof.
  destruct x as [s|s| |s m e]; cbn; intros Hx; subst;
    try reflexivity; try contradiction.
  unfold SFsqrt_core_binary.
  match goal with
  | |- context [Z.sqrtrem ?a] =>
      pose proof (sqrtrem_fst_nonneg a) as Hq;
      destruct (Z.sqrtrem a) as [q r]
  end.
  cbn [fst] in Hq.
  match goal with
  | |- context [binary_round_aux ?p ?em ?s ?a ?b ?c] =>
      pose proof (binary_round_aux_sign s a b c Hq) as H;
      destruct (binary_round_aux p em s a b c); exact H
  end.
Qed.

Lemma nonneg_number_leb (x : double) :
  nonneg_number x -> leb zero x = true.
Proof.
  destruct x as [s|s| |s m e]; cbn; intros H; subst;
    try reflexivity; contradiction.
Qed.

Lemma zip_self_nonneg (v : dvec) (acc : double) :
  Forall (fun x => is_nan x = false) v ->
  nonneg_number acc ->
  nonneg_number
    (fold_left (fun acc xy => add acc (mul (fst xy) (snd xy)))
               (combine v v) acc).
Proof.
  intros Hv. revert acc.
  induction Hv as [|x v Hx Hv IH]; intros acc Hacc; cbn; [exact Hacc|].
  apply IH, add_nonneg; [exact Hacc | apply mul_self_nonneg, Hx].
Qed.

Lemma add_nan_l (y : double) : add nan y = nan.
Proof. reflexivity. Qed.

Lemma add_nan_r (x : double) : add x nan = nan.
Proof. destruct x; reflexivity. Qed.

Lemma mul_nan_l (y : double) : mul nan y = nan.
Proof. reflexivity. Qed.

Lemma zip_from_nan (l : list (double * double)) :
  fold_left (fun acc xy => add acc (mul (fst xy) (snd xy))) l nan = nan.
Proof.
  induction l as [|xy l IH]; [reflexivity|]. cbn. exact IH.
Qed.

Lemma zip_self_nan (v : dvec) (acc : double) :
  Exists (fun x => is_nan x = true) v ->
  fold_left (fun acc xy => add acc (mul (fst xy) (snd xy)))
            (combine v v) acc = nan.
Proof.
  intros Hv. revert acc.
  induction Hv as [x v Hx|x v Hv IH]; intros acc; cbn.
  - destruct x; try discriminate. rewrite mul_nan_l, add_nan_r.
    apply zip_from_nan.
  - apply IH.
Qed.

(** C6, as amended.  [norm] never throws: it returns the square root of
    the value [dot(v, v)] returns.  That value is not negative ([0 <= norm]
    holds, the norm being [+inf] when the sum overflows) for a vector with
    no NaN element, it is NaN for a vector with a NaN element, and it is
    [+0] for the empty vector. *)
Theorem norm_never_throws (v : dvec) :
  (exists d, dot v v = Ok d /\ norm v = Ok (sqrt d) /\
             (Forall (fun x => is_nan x = false) v -> leb zero (sqrt d) = true) /\
             (Exists (fun x => is_nan x = true) v -> sqrt d = nan)) /\
  norm [] = Ok zero.
Proof.
  split; [|reflexivity].
  exists (dot_zip_loop v v).
  assert (D : dot v v = Ok (dot_zip_loop v v)).
  { unfold dot. now rewrite assert_compatible_ok. }
  split; [exact D|]. split; [unfold norm; now rewrite D|]. split.
  - intros Hv. apply nonneg_number_leb, sqrt_nonneg.
    apply zip_self_nonneg; [exact Hv | reflexivity].
  - intros Hv. unfold dot_zip_loop. now rewrite zip_self_nan.
Qed.

Lemma norm_never_throws_witness :
  norm [of_Z 3; of_Z 4] = Ok (of_Z 5) /\ leb zero (of_Z 5) = true.
Proof.
  destruct (norm_never_throws [of_Z 3; of_Z 4]) as [(d & D & N & P & _) _].
  assert (Hd : d = of_Z 25)
    by (vm_compute in D; injection D as <-; reflexivity).
  subst d. split.
  - exact N.
  - apply P. repeat constructor.
Defined.

(** C6, as stated, fails on a vector that holds a NaN: [norm] returns
    NaN, and [0 <= NaN] is false, so the result is no non-negative real. *)
Lemma norm_of_nan_not_nonneg :
  norm [nan] = Ok nan /\ leb zero nan = false /\
  ~ (forall v : dvec, exists r, norm v = Ok r /\ leb zero r = true).
Proof.
  split; [reflexivity|]. split; [reflexivity|].
  intros H. destruct (H [nan]) as (r & N & L).
  cbv in N. injection N as <-. discriminate L.
Qed.

(** ** Symmetry of the angle *)

Lemma mul_comm (x y : double) : mul x y = mul y x.
Proof.
  destruct x as [sx|sx| |sx mx ex]; destruct y as [sy|sy| |sy my ey];
    cbn; try reflexivity; try (now rewrite xorb_comm).
  now rewrite xorb_comm, Pos.mul_comm, Z.add_comm.
Qed.

Lemma zip_loop_comm (a b : dvec) (acc : double) :
  fold_left (fun acc xy => add acc (mul (fst xy) (snd xy))) (combine a b) acc
  = fold_left (fun acc xy => add acc (mul (fst xy) (snd xy))) (combine b a) acc.
Proof.
  revert b acc. induction a as [|x a IH]; intros [|y b] acc; try reflexivity.
  cbn. rewrite (mul_comm x y). apply IH.
Qed.

Lemma dot_comm (a b : dvec) : dot a b = dot b a.
Proof.
  unfold dot, dot_zip_loop.
  now rewrite assert_compatible_sym, zip_loop_comm.
Qed.

Lemma dot_self (a : dvec) : dot a a = Ok (dot_zip_loop a a).
Proof. unfold dot. now rewrite assert_compatible_ok. Qed.

Lemma norm_self (a : dvec) : norm a = Ok (sqrt (dot_zip_loop a a)).
Proof. unfold norm. now rewrite dot_self. Qed.

Lemma eqb_refl_number (t : double) : is_nan t = false -> eqb t t = true.
Proof.
  unfold eqb, SFeqb.
  destruct t as [s|s| |s m e]; try destruct s; cbn [SFcompare];
    try reflexivity; try discriminate; intros _;
    rewrite Z.compare_refl;
    (pose proof (Pos.compare_refl m) as Hm; unfold Pos.compare in Hm;
     rewrite Hm; reflexivity).
Qed.

Lemma one_value : one = S754_finite false 4503599627370496 (-52).
Proof. vm_compute. reflexivity. Qed.



Lemma acos_above_one (acos_in_domain : double -> double) (q : double) :
  ltb one q = true -> acos acos_in_domain q = nan.
Proof.
  unfold acos. rewrite one_value. unfold ltb, SFltb.
  destruct q as [s|s| |s m e]; cbn [SFcompare is_nan abs SFabs].
  - destruct s; discriminate.
  - destruct s; [discriminate | reflexivity].
  - reflexivity.
  - destruct s; [discriminate|]. intros H. now rewrite H.
Qed.

Lemma acos_nan_or_equal (acos_in_domain : double -> double) (q : double) :
  let t := acos acos_in_domain q in
  if is_nan t then eqb t t = false else eqb t t = true.
Proof.
  cbv zeta. destruct (is_nan (acos acos_in_domain q)) eqn:N.
  - destruct (acos acos_in_domain q); try discriminate N. reflexivity.
  - now apply eqb_refl_number.
Qed.

Lemma quotient_comm (a b : dvec) : quotient a b = quotient b a.
Proof.
  unfold quotient, dot_zip_loop.
  now rewrite (zip_loop_comm a b), mul_comm.
Qed.

Lemma theta_quotient (acos_in_domain : double -> double) (a b : dvec) :
  length a = length b ->
  theta acos_in_domain a b = Ok (acos acos_in_domain (quotient a b)).
Proof.
  intros H. unfold theta, dot.
  rewrite assert_compatible_ok by exact H. rewrite !norm_self. reflexivity.
Qed.

Lemma theta_mismatch (acos_in_domain : double -> double) (a b : dvec) :
  length a <> length b ->
  theta acos_in_domain a b = Throw mismatched_dvec_dimensions.
Proof.
  intros H. unfold theta, assert_compatible.
  destruct (Nat.eqb_spec (length a) (length b)); [contradiction|reflexivity].
Qed.

(** C7, as amended.  [theta(a, b)] and [theta(b, a)] have the same
    outcome, for every two vectors.  When the lengths differ both throw
    the same [logic_error].  When they agree both are the arc cosine of
    one and the same quotient, [dot(a, b) / (norm(a) * norm(b))], so the
    two angles are either both NaN, and then [theta(a, b) == theta(b, a)]
    is false, or one and the same number, and then it is true. *)
Theorem theta_symmetric (acos_in_domain : double -> double) (a b : dvec) :
  quotient a b = quotient b a /\
  match theta acos_in_domain a b, theta acos_in_domain b a with
  | Ok t, Ok t' =>
      length a = length b /\
      t = acos acos_in_domain (quotient a b) /\
      t' = acos acos_in_domain (quotient b a) /\
      (if is_nan t
       then is_nan t' = true /\ eqb t t' = false
       else t' = t /\ eqb t t' = true)
  | Throw e, Throw e' =>
      length a <> length b /\
      e = mismatched_dvec_dimensions /\ e' = mismatched_dvec_dimensions
  | _, _ => False
  end.
Proof.
  split; [apply quotient_comm|].
  destruct (Nat.eq_dec (length a) (length b)) as [H|H].
  - rewrite (theta_quotient acos_in_domain a b H).
    rewrite (theta_quotient acos_in_domain b a (eq_sym H)).
    rewrite <- (quotient_comm a b).
    repeat (split; [solve [assumption | reflexivity]|]).
    pose proof (acos_nan_or_equal acos_in_domain (quotient a b)) as E.
    cbv zeta in E.
    destruct (is_nan (acos acos_in_domain (quotient a b))) eqn:N.
    + split; [reflexivity | exact E].
    + split; [reflexivity | exact E].
  - rewrite (theta_mismatch acos_in_domain a b H).
    rewrite (theta_mismatch acos_in_domain b a (fun E => H (eq_sym E))).
    repeat split. exact H.
Qed.

(** C7, as stated, fails: [(1, 1, 1)] and [(2, 2, 2)] have equal length
    and norms that are positive finite numbers, but the roundings of the
    square roots and of their product leave the quotient at [1 + 2^-52],
    above [1]; so the angle is NaN in both orders, whatever the library
    computes inside the domain of the arc cosine, and the two angles do not
    compare equal with [==]. *)
Lemma theta_nan_not_symmetric :
  length ones = length twos /\
  positive_norm ones = true /\ positive_norm twos = true /\
  quotient ones twos = S754_finite false 4503599627370497 (-52) /\
  (forall acos_in_domain : double -> double,
      exists t t' : double,
        theta acos_in_domain ones twos = Ok t /\
        theta acos_in_domain twos ones = Ok t' /\
        is_nan t = true /\ is_nan t' = true /\ eqb t t' = false).
Proof.
  split; [reflexivity|].
  split; [vm_compute; reflexivity|].
  split; [vm_compute; reflexivity|].
  split; [vm_compute; reflexivity|].
  intros acos_in_domain. exists nan, nan.
  rewrite (theta_quotient acos_in_domain ones twos eq_refl).
  rewrite (theta_quotient acos_in_domain twos ones eq_refl).
  rewrite <- (quotient_comm ones twos).
  rewrite acos_above_one by (vm_compute; reflexivity).
  repeat split.
Qed.

(** ** The angle of a vector with itself *)

Lemma theta_self (acos_in_domain : double -> double) (v : dvec) :
  theta acos_in_domain v v = Ok (acos acos_in_domain (self_quotient v)).
Proof.
  unfold theta. rewrite assert_compatible_ok by reflexivity.
  rewrite dot_self, norm_self. reflexivity.
Qed.





(* ================================================================== *)
(** * Pair enumeration *)

Lemma pairwise_inner_app (x : dvec) (after : list dvec)
      (pairs : list (dvec * dvec)) :
  pairwise_inner x after pairs = pairs ++ map (pair x) after.
Proof.
  revert pairs. induction after as [|y after IH]; intros pairs; cbn.
  - now rewrite app_nil_r.
  - rewrite IH, <- app_assoc. reflexivity.
Qed.

Lemma pairwise_outer_app (vecs : list dvec) (pairs : list (dvec * dvec)) :
  pairwise_outer vecs pairs = pairs ++ all_pairs vecs.
Proof.
  revert pairs. induction vecs as [|x after IH]; intros pairs; cbn.
  - now rewrite app_nil_r.
  - rewrite IH, pairwise_inner_app, <- app_assoc. reflexivity.
Qed.

Lemma pairwise_elts_all_pairs (vecs : list dvec) :
  pairwise_elts vecs = all_pairs vecs.
Proof. unfold pairwise_elts. now rewrite pairwise_outer_app. Qed.

Lemma flat_map_shift {B : Type} (f g : nat -> list B) (h : B -> B)
      (l : list nat) :
  (forall i, f (S i) = map h (g i)) ->
  flat_map f (map S l) = map h (flat_map g l).
Proof.
  intros H. induction l as [|i l IH]; cbn; [reflexivity|].
  now rewrite map_app, IH, H.
Qed.

Lemma index_pairs_S (n : nat) :
  index_pairs (S n)
  = map (pair 0) (seq 1 n) ++ map shift_indices (index_pairs n).
Proof.
  unfold index_pairs. cbn [seq flat_map].
  replace (S n - 1) with n by lia. f_equal.
  rewrite <- seq_shift.
  apply flat_map_shift. intros i.
  cbn [Nat.sub]. rewrite <- seq_shift, !map_map. reflexivity.
Qed.

Lemma nth_seq_self (l : list dvec) :
  map (fun j => nth j l []) (seq 0 (length l)) = l.
Proof.
  induction l as [|x l IH]; [reflexivity|].
  cbn [length seq map nth]. f_equal.
  rewrite <- seq_shift, map_map. exact IH.
Qed.

Lemma all_pairs_by_index (vecs : list dvec) :
  all_pairs vecs = map (at_indices vecs) (index_pairs (length vecs)).
Proof.
  induction vecs as [|x after IH]; [reflexivity|].
  cbn [all_pairs length]. rewrite index_pairs_S, map_app, !map_map. f_equal.
  - rewrite <- seq_shift, map_map. unfold at_indices. cbn [fst snd nth].
    rewrite <- (nth_seq_self after) at 1. now rewrite map_map.
  - rewrite IH. apply map_ext. intros [i j]. reflexivity.
Qed.

Lemma all_pairs_length (vecs : list dvec) :
  2 * length (all_pairs vecs) = length vecs * (length vecs - 1).
Proof.
  induction vecs as [|x after IH]; [reflexivity|].
  cbn [all_pairs length]. rewrite length_app, length_map.
  rewrite Nat.sub_succ, Nat.sub_0_r.
  destruct (length after) as [|k]; [cbn in *; lia|].
  cbn [Nat.sub] in IH. rewrite Nat.sub_0_r in IH. nia.
Qed.

Lemma in_index_pairs (n i j : nat) :
  In (i, j) (index_pairs n) <-> i < j < n.
Proof.
  unfold index_pairs. rewrite in_flat_map. split.
  - intros (k & Hk & Hij). apply in_seq in Hk.
    apply in_map_iff in Hij. destruct Hij as (j' & E & Hj).
    injection E as -> ->. apply in_seq in Hj. lia.
  - intros H. exists i. split; [apply in_seq; lia|].
    apply in_map_iff. exists j. split; [reflexivity | apply in_seq; lia].
Qed.

Lemma StronglySorted_app {A : Type} (R : A -> A -> Prop) (l1 l2 : list A) :
  StronglySorted R l1 -> StronglySorted R l2 ->
  (forall x y, In x l1 -> In y l2 -> R x y) ->
  StronglySorted R (l1 ++ l2).
Proof.
  intros H1 H2 H. induction H1 as [|x l1 H1 IH Hx]; [exact H2|].
  cbn. constructor.
  - apply IH. intros a b Ha Hb. apply H; [now right | exact Hb].
  - apply Forall_app. split; [exact Hx|].
    apply Forall_forall. intros y Hy. apply H; [now left | exact Hy].
Qed.

Lemma StronglySorted_map {A B : Type} (R : A -> A -> Prop)
      (Q : B -> B -> Prop) (f : A -> B) (l : list A) :
  (forall x y, R x y -> Q (f x) (f y)) ->
  StronglySorted R l -> StronglySorted Q (map f l).
Proof.
  intros H HS. induction HS as [|x l HS IH Hx]; cbn; constructor.
  - exact IH.
  - apply Forall_map. eapply Forall_impl; [|exact Hx]. intros y. apply H.
Qed.

Lemma seq_strongly_sorted (start len : nat) :
  StronglySorted lt (seq start len).
Proof.
  revert start. induction len as [|len IH]; intros start; cbn; constructor.
  - apply IH.
  - apply Forall_forall. intros y Hy. apply in_seq in Hy. lia.
Qed.

Lemma index_pairs_sorted (n : nat) : StronglySorted lex_lt (index_pairs n).
Proof.
  induction n as [|n IH]; [constructor|].
  rewrite index_pairs_S. apply StronglySorted_app.
  - apply (StronglySorted_map lt lex_lt (pair 0)); [|apply seq_strongly_sorted].
    intros x y Hxy. right. cbn. lia.
  - apply (StronglySorted_map lex_lt lex_lt shift_indices); [|exact IH].
    intros [i j] [i' j']. unfold lex_lt. cbn. lia.
  - intros p q Hp Hq. apply in_map_iff in Hp, Hq.
    destruct Hp as (j & <- & _). destruct Hq as ([i' j'] & <- & _).
    left. cbn. lia.
Qed.

Lemma strictly_sorted_NoDup {A : Type} (R : A -> A -> Prop) (l : list A) :
  (forall x, ~ R x x) -> StronglySorted R l -> NoDup l.
Proof.
  intros Hirr HS. induction HS as [|x l HS IH Hx]; constructor.
  - intros Hin. rewrite Forall_forall in Hx. exact (Hirr x (Hx x Hin)).
  - exact IH.
Qed.

(** C4.  For a sequence of [N] vectors [pairwise_elts] returns the pairs
    [(vecs[i], vecs[j])] along the list of the index pairs [(i, j)] with
    [i < j < N]; that list holds every such pair, each once, in increasing
    lexicographic order, so no pair joins an index with itself; and the
    number of pairs is [N * (N - 1) / 2], which is zero when [N < 2]. *)
Theorem pairwise_elts_enumeration (vecs : list dvec) :
  pairwise_elts vecs
    = map (at_indices vecs) (index_pairs (length vecs)) /\
  (forall i j, In (i, j) (index_pairs (length vecs))
               <-> i < j < length vecs) /\
  StronglySorted lex_lt (index_pairs (length vecs)) /\
  NoDup (index_pairs (length vecs)) /\
  length (pairwise_elts vecs) = length vecs * (length vecs - 1) / 2.
Proof.
  split; [|split; [|split; [|split]]].
  - rewrite pairwise_elts_all_pairs. apply all_pairs_by_index.
  - intros i j. apply in_index_pairs.
  - apply index_pairs_sorted.
  - apply (strictly_sorted_NoDup lex_lt); [|apply index_pairs_sorted].
    intros [i j]. unfold lex_lt. cbn. lia.
  - rewrite pairwise_elts_all_pairs, <- all_pairs_length.
    rewrite Nat.mul_comm. symmetry. apply Nat.div_mul. discriminate.
Qed.

(* ================================================================== *)
(** * Ordering by angle *)

(** ** The order of [double] away from NaN *)

Ltac compare_cases :=
  repeat match goal with
         | H : context [Pos.compare_cont Eq ?a ?b] |- _ =>
             change (Pos.compare_cont Eq a b) with (Pos.compare a b) in H
         | |- context [Pos.compare_cont Eq ?a ?b] =>
             change (Pos.compare_cont Eq a b) with (Pos.compare a b)
         end;
  repeat match goal with
         | H : context [Z.compare ?a ?b] |- _ =>
             destruct (Z.compare_spec a b); try discriminate H
         | H : context [Pos.compare ?a ?b] |- _ =>
             destruct (Pos.compare_spec a b); try discriminate H
         | |- context [Z.compare ?a ?b] => destruct (Z.compare_spec a b)
         | |- context [Pos.compare ?a ?b] => destruct (Pos.compare_spec a b)
         end;
  subst; try reflexivity; try discriminate; try lia.

Lemma SFcompare_antisym (x y : double) :
  SFcompare y x = option_map CompOpp (SFcompare x y).
Proof.
  destruct x as [sx|sx| |sx mx ex]; destruct y as [sy|sy| |sy my ey];
    try destruct sx; try destruct sy; cbn; try reflexivity; compare_cases.
Qed.

Lemma SFcompare_total (x y : double) :
  is_nan x = false -> is_nan y = false -> exists c, SFcompare x y = Some c.
Proof.
  destruct x as [sx|sx| |sx mx ex]; destruct y as [sy|sy| |sy my ey];
    try discriminate; intros _ _; cbn; eauto.
Qed.

Lemma SFcompare_trans (c : comparison) (x y z : double) :
  SFcompare x y = Some c -> SFcompare y z = Some c -> SFcompare x z = Some c.
Proof.
  destruct c;
    destruct x as [sx|sx| |sx mx ex]; destruct y as [sy|sy| |sy my ey];
    destruct z as [sz|sz| |sz mz ez];
    try destruct sx; try destruct sy; try destruct sz; cbn;
    intros H1 H2; try discriminate; try reflexivity;
    injection H1 as H1; injection H2 as H2; f_equal; compare_cases.
Qed.

Lemma ltb_irrefl (x : double) : ltb x x = false.
Proof.
  unfold ltb, SFltb.
  destruct x as [s|s| |s m e]; try destruct s; cbn; try reflexivity;
    rewrite Z.compare_refl; change (Pos.compare_cont Eq m m) with (Pos.compare m m);
    rewrite Pos.compare_refl; reflexivity.
Qed.

Lemma ltb_trans (x y z : double) :
  ltb x y = true -> ltb y z = true -> ltb x z = true.
Proof.
  unfold ltb, SFltb. intros H1 H2.
  destruct (SFcompare x y) as [[]|] eqn:E1; try discriminate.
  destruct (SFcompare y z) as [[]|] eqn:E2; try discriminate.
  now rewrite (SFcompare_trans Lt x y z E1 E2).
Qed.

(** Two numbers neither of which is below the other are [==]. *)
Lemma unordered_is_eq (x y : double) :
  is_nan x = false -> is_nan y = false ->
  ltb x y = false -> ltb y x = false -> SFcompare x y = Some Eq.
Proof.
  unfold ltb, SFltb. intros Hx Hy H1 H2.
  rewrite (SFcompare_antisym x y) in H2.
  destruct (SFcompare_total x y Hx Hy) as [c E]. rewrite E in *.
  destruct c; cbn in *; try discriminate; reflexivity.
Qed.

Lemma ltb_incomparable_trans (x y z : double) :
  is_nan x = false -> is_nan y = false -> is_nan z = false ->
  ltb x y = false -> ltb y x = false ->
  ltb y z = false -> ltb z y = false ->
  ltb x z = false /\ ltb z x = false.
Proof.
  intros Hx Hy Hz A B C D.
  pose proof (unordered_is_eq x y Hx Hy A B) as E1.
  pose proof (unordered_is_eq y z Hy Hz C D) as E2.
  pose proof (SFcompare_trans Eq x y z E1 E2) as E.
  unfold ltb, SFltb. rewrite (SFcompare_antisym x z), E. split; reflexivity.
Qed.

Lemma not_ltb_leb (x y : double) :
  is_nan x = false -> is_nan y = false -> ltb y x = false -> leb x y = true.
Proof.
  unfold ltb, leb, SFltb, SFleb. intros Hx Hy H.
  rewrite (SFcompare_antisym x y) in H.
  destruct (SFcompare_total x y Hx Hy) as [c E]. rewrite E in *.
  destruct c; cbn in *; try discriminate; reflexivity.
Qed.

Lemma leb_not_nan (x y : double) :
  leb x y = true -> is_nan x = false /\ is_nan y = false.
Proof.
  destruct x, y; cbn; try discriminate; auto.
Qed.

(** ** An insertion sort meets the contract of [std::sort] *)

Section InsertionSort.

Variable A : Type.
Variable comp : A -> A -> result bool.
Variable less : A -> A -> bool.
Variable domain : list A.

Hypothesis comp_less :
  forall x y, In x domain -> In y domain -> comp x y = Ok (less x y).
Hypothesis less_irrefl : forall x, In x domain -> less x x = false.
Hypothesis less_trans :
  forall x y z, In x domain -> In y domain -> In z domain ->
                less x y = true -> less y z = true -> less x z = true.

Lemma insert_after_equals_spec (x : A) (s : list A) :
  In x domain -> incl s domain ->
  exists r, insert_after_equals comp x s = Ok r /\
            Permutation (x :: s) r /\
            (StronglySorted (not_above less) s -> StronglySorted (not_above less) r).
Proof.
  intros Hx. induction s as [|y rest IH]; intros Hs.
  - exists [x]. repeat split; [apply Permutation_refl|].
    intros _. repeat constructor.
  - assert (Hy : In y domain) by (apply Hs; now left).
    assert (Hrest : incl rest domain)
      by (intros a Ha; apply Hs; now right).
    cbn [insert_after_equals]. rewrite (comp_less x y Hx Hy). cbn [bind].
    destruct (less x y) eqn:Lxy.
    + exists (x :: y :: rest). repeat split; [apply Permutation_refl|].
      intros HS. constructor; [exact HS|].
      inversion HS as [|? ? HSrest Hall]; subst.
      assert (Lyx : less y x = false).
      { destruct (less y x) eqn:E; [|reflexivity].
        rewrite <- (less_irrefl x Hx). symmetry.
        exact (less_trans x y x Hx Hy Hx Lxy E). }
      constructor; [exact Lyx|].
      rewrite Forall_forall in *. intros b Hb.
      unfold not_above in *.
      destruct (less b x) eqn:E; [|reflexivity].
      rewrite <- (Hall b Hb). symmetry.
      exact (less_trans b x y (Hrest b Hb) Hx Hy E Lxy).
    + destruct (IH Hrest) as (r & Er & Pr & Sr). rewrite Er. cbn [bind].
      exists (y :: r). repeat split.
      * apply perm_trans with (y :: x :: rest);
          [apply perm_swap | now apply perm_skip].
      * intros HS. inversion HS as [|? ? HSrest Hall]; subst.
        constructor; [now apply Sr|].
        apply (Permutation_Forall Pr). constructor; assumption.
Qed.

Lemma insertion_sort_rec_spec (l : list A) :
  incl l domain ->
  exists r, insertion_sort_rec comp l = Ok r /\
            Permutation l r /\ StronglySorted (not_above less) r.
Proof.
  induction l as [|x l IH]; intros Hl.
  - exists []. repeat split; constructor.
  - assert (Hx : In x domain) by (apply Hl; now left).
    assert (Hl' : incl l domain) by (intros a Ha; apply Hl; now right).
    destruct (IH Hl') as (s & Es & Ps & Ss).
    cbn [insertion_sort_rec]. rewrite Es. cbn [bind].
    assert (Hs : incl s domain).
    { intros a Ha. apply Hl'. apply (Permutation_in a (Permutation_sym Ps) Ha). }
    destruct (insert_after_equals_spec x s Hx Hs) as (r & Er & Pr & Sr).
    exists r. repeat split; [exact Er| |now apply Sr].
    apply perm_trans with (x :: s); [now apply perm_skip | exact Pr].
Qed.

Lemma sorted_not_above_wrt (r : list A) :
  incl r domain -> StronglySorted (not_above less) r -> sorted_wrt comp r.
Proof.
  intros Hr HS. unfold sorted_wrt.
  induction HS as [|x r HS IH Hall]; constructor.
  - apply IH. intros a Ha. apply Hr. now right.
  - rewrite Forall_forall in *. intros y Hy.
    rewrite comp_less; [| apply Hr; now right | apply Hr; now left].
    f_equal. exact (Hall y Hy).
Qed.

End InsertionSort.

Lemma insertion_sort_contract : std_sort_contract insertion_sort.
Proof.
  intros A comp l (less & Hc & Hi & Ht & _).
  destruct (insertion_sort_rec_spec A comp less l Hc Hi Ht l (incl_refl l))
    as (r & Er & Pr & Sr).
  exists r. repeat split; [exact Er | exact Pr |].
  apply (sorted_not_above_wrt A comp less l Hc); [|exact Sr].
  intros a Ha. apply (Permutation_in a (Permutation_sym Pr) Ha).
Qed.

(** ** [theta_sort] *)

Lemma in_all_pairs (vecs : list dvec) (p : dvec * dvec) :
  In p (all_pairs vecs) -> In (fst p) vecs /\ In (snd p) vecs.
Proof.
  induction vecs as [|x after IH]; [contradiction|].
  cbn [all_pairs]. intros H. apply in_app_or in H. destruct H as [H|H].
  - apply in_map_iff in H. destruct H as (y & <- & Hy).
    split; [now left | now right].
  - destruct (IH H) as [H1 H2]. split; now right.
Qed.

Lemma theta_same_length (acos_in_domain : double -> double) (a b : dvec) :
  length a = length b -> exists t, theta acos_in_domain a b = Ok t.
Proof.
  intros H. unfold theta, dot.
  rewrite assert_compatible_ok by exact H. rewrite !norm_self. cbn.
  eexists. reflexivity.
Qed.

Lemma pairs_have_angles (acos_in_domain : double -> double) (n : nat)
      (vecs : list dvec) (p : dvec * dvec) :
  same_dimension n vecs -> In p (pairwise_elts vecs) ->
  theta acos_in_domain (fst p) (snd p) = Ok (angle_of acos_in_domain p).
Proof.
  intros Hd Hp. rewrite pairwise_elts_all_pairs in Hp.
  destruct (in_all_pairs vecs p Hp) as [H1 H2].
  unfold same_dimension in Hd. rewrite Forall_forall in Hd.
  destruct (theta_same_length acos_in_domain (fst p) (snd p)) as [t E].
  - now rewrite (Hd _ H1), (Hd _ H2).
  - unfold angle_of. now rewrite E.
Qed.

(** On same-dimension vectors whose angles are numbers, the comparator of
    [theta_sort] is a strict weak ordering of the pairs. *)
Lemma theta_less_strict_weak (acos_in_domain : double -> double) (n : nat)
      (vecs : list dvec) :
  same_dimension n vecs ->
  (forall p t, In p (pairwise_elts vecs) ->
               theta acos_in_domain (fst p) (snd p) = Ok t ->
               is_nan t = false) ->
  strict_weak_ordering_on (theta_less acos_in_domain) (pairwise_elts vecs).
Proof.
  intros Hd Hnan.
  assert (Ha : forall p, In p (pairwise_elts vecs) ->
                         is_nan (angle_of acos_in_domain p) = false).
  { intros p Hp. apply (Hnan p _ Hp).
    apply (pairs_have_angles acos_in_domain n vecs p Hd Hp). }
  exists (fun p q => ltb (angle_of acos_in_domain p)
                         (angle_of acos_in_domain q)).
  split; [|split; [|split]].
  - intros p q Hp Hq. unfold theta_less.
    rewrite (pairs_have_angles acos_in_domain n vecs p Hd Hp).
    rewrite (pairs_have_angles acos_in_domain n vecs q Hd Hq).
    reflexivity.
  - intros p _. apply ltb_irrefl.
  - intros p q r _ _ _. apply ltb_trans.
  - intros p q r Hp Hq Hr. apply ltb_incomparable_trans; now apply Ha.
Qed.

Lemma angles_of_pairs (acos_in_domain : double -> double)
      (out : list (dvec * dvec)) :
  (forall p, In p out ->
             theta acos_in_domain (fst p) (snd p)
             = Ok (angle_of acos_in_domain p)) ->
  angles acos_in_domain out = Ok (map (angle_of acos_in_domain) out).
Proof.
  induction out as [|p out IH]; intros H; [reflexivity|].
  cbn [angles map]. rewrite (H p (or_introl eq_refl)). cbn [bind].
  rewrite IH; [reflexivity|]. intros q Hq. apply H. now right.
Qed.

Lemma angles_inv (acos_in_domain : double -> double)
      (out : list (dvec * dvec)) (ts : list double) :
  angles acos_in_domain out = Ok ts ->
  ts = map (angle_of acos_in_domain) out.
Proof.
  revert ts. induction out as [|p out IH]; intros ts H.
  - cbn in H. now injection H as <-.
  - cbn [angles] in H.
    destruct (theta acos_in_domain (fst p) (snd p)) as [t|e] eqn:T;
      cbn [bind] in H; [|discriminate].
    destruct (angles acos_in_domain out) as [ts'|e];
      cbn [bind] in H; [|discriminate].
    injection H as <-. cbn [map]. unfold angle_of at 1. rewrite T.
    f_equal. now apply IH.
Qed.

(** What [std::sort] gives [theta_sort] on vectors of one dimension whose
    angles are numbers. *)
Lemma theta_sort_spec (std_sort : sort_function)
      (acos_in_domain : double -> double) (n : nat) (vecs : list dvec) :
  std_sort_contract std_sort ->
  same_dimension n vecs ->
  (forall p t, In p (pairwise_elts vecs) ->
               theta acos_in_domain (fst p) (snd p) = Ok t ->
               is_nan t = false) ->
  exists out,
    theta_sort std_sort acos_in_domain vecs = Ok out /\
    Permutation (pairwise_elts vecs) out /\
    StronglySorted (fun x y => leb x y = true)
                   (map (angle_of acos_in_domain) out) /\
    angles acos_in_domain out = Ok (map (angle_of acos_in_domain) out).
Proof.
  intros Hsort Hd Hnan.
  destruct (Hsort _ _ _ (theta_less_strict_weak acos_in_domain n vecs Hd Hnan))
    as (out & E & P & S).
  assert (Hin : forall p, In p out -> In p (pairwise_elts vecs)).
  { intros p Hp. apply (Permutation_in p (Permutation_sym P) Hp). }
  assert (Hang : forall p, In p out ->
                 theta acos_in_domain (fst p) (snd p)
                 = Ok (angle_of acos_in_domain p)).
  { intros p Hp. apply (pairs_have_angles acos_in_domain n vecs p Hd).
    now apply Hin. }
  exists out. split; [exact E|]. split; [exact P|].
  split; [|now apply angles_of_pairs].
  clear E P. unfold sorted_wrt in S.
  induction S as [|p out S IH Hall]; cbn [map]; constructor.
  - apply IH; intros q Hq; [apply Hin | apply Hang]; now right.
  - apply Forall_map. rewrite Forall_forall in *. intros q Hq.
    specialize (Hall q Hq). unfold theta_less in Hall.
    rewrite (Hang q (or_intror Hq)), (Hang p (or_introl eq_refl)) in Hall.
    cbn in Hall. injection Hall as Hall.
    apply not_ltb_leb; [| |exact Hall].
    + apply (Hnan p _ (Hin p (or_introl eq_refl)) (Hang p (or_introl eq_refl))).
    + apply (Hnan q _ (Hin q (or_intror Hq)) (Hang q (or_intror Hq))).
Qed.

(** C1, as amended.  For every sequence of vectors of one dimension whose
    pairwise angles are all numbers (none is NaN), [theta_sort] returns a
    reordering of the pairs of [pairwise_elts] and the angles of the
    returned pairs are non-decreasing from the first pair to the last;
    [std::sort] is any algorithm that meets its contract. *)
Theorem theta_sort_sorted_permutation (std_sort : sort_function)
        (acos_in_domain : double -> double) (n : nat) (vecs : list dvec) :
  std_sort_contract std_sort ->
  same_dimension n vecs ->
  (forall p t, In p (pairwise_elts vecs) ->
               theta acos_in_domain (fst p) (snd p) = Ok t ->
               is_nan t = false) ->
  exists out ts,
    theta_sort std_sort acos_in_domain vecs = Ok out /\
    Permutation (pairwise_elts vecs) out /\
    angles acos_in_domain out = Ok ts /\
    non_decreasing ts.
Proof.
  intros Hsort Hd Hnan.
  destruct (theta_sort_spec std_sort acos_in_domain n vecs Hsort Hd Hnan)
    as (out & E & P & S & Ang).
  exists out, (map (angle_of acos_in_domain) out).
  repeat split; try assumption.
  apply StronglySorted_Sorted, S.
Qed.

Lemma no_nan_angle_spec (acos_in_domain : double -> double)
      (pairs : list (dvec * dvec)) :
  no_nan_angle acos_in_domain pairs = true ->
  forall p t, In p pairs ->
              theta acos_in_domain (fst p) (snd p) = Ok t ->
              is_nan t = false.
Proof.
  unfold no_nan_angle. rewrite forallb_forall. intros H p t Hp Ht.
  specialize (H p Hp). unfold angle_of in H. rewrite Ht in H.
  now apply negb_true_iff in H.
Qed.

Lemma theta_sort_sorted_permutation_witness :
  exists out ts,
    theta_sort insertion_sort unused_acos parallel_vectors = Ok out /\
    Permutation (pairwise_elts parallel_vectors) out /\
    angles unused_acos out = Ok ts /\
    non_decreasing ts.
Proof.
  apply (theta_sort_sorted_permutation insertion_sort unused_acos 2).
  - apply insertion_sort_contract.
  - repeat constructor.
  - apply no_nan_angle_spec. vm_compute. reflexivity.
Defined.

Lemma sorted_excludes_nan (a b : double) (l : list double) :
  Sorted (fun x y => leb x y = true) (a :: b :: l) ->
  ~ In nan (a :: b :: l).
Proof.
  revert a b. induction l as [|c l IH]; intros a b HS Hin.
  - inversion HS as [|? ? _ Hd]; subst. inversion Hd as [|? ? Hab]; subst.
    destruct (leb_not_nan a b Hab) as [Ha Hb].
    destruct Hin as [->|[->|[]]]; discriminate.
  - inversion HS as [|? ? HS' Hd]; subst. inversion Hd as [|? ? Hab]; subst.
    destruct (leb_not_nan a b Hab) as [Ha Hb].
    destruct Hin as [->|Hin]; [discriminate|].
    exact (IH b c HS' Hin).
Qed.

(** C1, as stated, fails: the vectors [(0)], [(1)], [(2)] have one
    dimension, and two of their three angles are NaN (the zero vector has
    norm [0]); no reordering of the three pairs has angles that are
    non-decreasing under [<=], whatever [std::sort] does. *)
Lemma theta_sort_nan_not_sorted :
  same_dimension 1 zero_one_two /\
  (forall acos_in_domain : double -> double,
      angles acos_in_domain (pairwise_elts zero_one_two)
      = Ok [nan; nan; zero]) /\
  ~ (exists (std_sort : sort_function) (acos_in_domain : double -> double)
            (out : list (dvec * dvec)) (ts : list double),
        theta_sort std_sort acos_in_domain zero_one_two = Ok out /\
        Permutation (pairwise_elts zero_one_two) out /\
        angles acos_in_domain out = Ok ts /\
        non_decreasing ts).
Proof.
  split; [repeat constructor|].
  split; [intros ac; vm_compute; reflexivity|].
  intros (std_sort & ac & out & ts & _ & P & A & S).
  apply angles_inv in A. subst ts.
  assert (Hin : In ([zero], [one]) out).
  { apply (Permutation_in _ P). left. reflexivity. }
  assert (Hnan : In nan (map (angle_of ac) out)).
  { change nan with (angle_of ac ([zero], [one])). now apply in_map. }
  pose proof (Permutation_length P) as L.
  destruct out as [|a [|b out]]; try discriminate L.
  exact (sorted_excludes_nan _ _ _ S Hnan).
Qed.

(** ** Ties *)

Lemma Permutation_filter_keep {A : Type} (f : A -> bool) (l l' : list A) :
  Permutation l l' -> Permutation (filter f l) (filter f l').
Proof.
  intros P. induction P as [|x l l' P IH|x y l|l l' l'' P1 IH1 P2 IH2]; cbn.
  - constructor.
  - destruct (f x); [now constructor | exact IH].
  - destruct (f x), (f y); try apply Permutation_refl. apply perm_swap.
  - exact (perm_trans IH1 IH2).
Qed.

(** C2, as amended.  On vectors of one dimension whose angles are numbers,
    [theta_sort] keeps the pairs of every angle: the pairs with a given
    angle in the output are a reordering of the pairs with that angle in
    the enumeration of [pairwise_elts].  Their relative order is the one
    [std::sort] leaves, which its contract does not fix. *)
Theorem theta_sort_ties_permuted (std_sort : sort_function)
        (acos_in_domain : double -> double) (n : nat) (vecs : list dvec) :
  std_sort_contract std_sort ->
  same_dimension n vecs ->
  (forall p t, In p (pairwise_elts vecs) ->
               theta acos_in_domain (fst p) (snd p) = Ok t ->
               is_nan t = false) ->
  exists out,
    theta_sort std_sort acos_in_domain vecs = Ok out /\
    forall t, Permutation (filter (angle_is acos_in_domain t)
                                  (pairwise_elts vecs))
                          (filter (angle_is acos_in_domain t) out).
Proof.
  intros Hsort Hd Hnan.
  destruct (theta_sort_spec std_sort acos_in_domain n vecs Hsort Hd Hnan)
    as (out & E & P & _).
  exists out. split; [exact E|].
  intros t. now apply Permutation_filter_keep.
Qed.

Lemma theta_sort_ties_permuted_witness :
  exists out,
    theta_sort insertion_sort unused_acos one_to_seven = Ok out /\
    forall t, Permutation (filter (angle_is unused_acos t)
                                  (pairwise_elts one_to_seven))
                          (filter (angle_is unused_acos t) out).
Proof.
  apply (theta_sort_ties_permuted insertion_sort unused_acos 1).
  - apply insertion_sort_contract.
  - repeat constructor.
  - apply no_nan_angle_spec. vm_compute. reflexivity.
Defined.

Lemma all_angles_zero (acos_in_domain : double -> double) :
  forallb (fun p => identical (angle_of acos_in_domain p) zero)
          (pairwise_elts one_to_seven) = true.
Proof. vm_compute. reflexivity. Qed.

(** C2, as stated, fails: [std::sort] need not be stable.  The 21 pairs
    of the one-dimensional vectors [(1)] to [(7)] all have the angle [0];
    a sort that meets the contract of [std::sort] returns them in the
    reverse of the enumeration order, so pairs of equal angle do not keep
    their relative order. *)
Lemma theta_sort_not_stable :
  std_sort_contract insertion_sort /\
  same_dimension 1 one_to_seven /\
  (forall acos_in_domain : double -> double,
      forallb (fun p => identical (angle_of acos_in_domain p) zero)
              (pairwise_elts one_to_seven) = true /\
      theta_sort insertion_sort acos_in_domain one_to_seven
      = Ok (rev (pairwise_elts one_to_seven)) /\
      ~ ties_keep_order acos_in_domain (pairwise_elts one_to_seven)
                        (rev (pairwise_elts one_to_seven))).
Proof.
  split; [apply insertion_sort_contract|].
  split; [repeat constructor|].
  intros ac. split; [apply all_angles_zero|].
  split; [vm_compute; reflexivity|].
  intros K. specialize (K zero). vm_compute in K. discriminate K.
Qed.

(* ================================================================== *)
(** * Ingestion *)

(** [getlines] is the iteration of [getline]. *)
Lemma getlines_getline (input : chars) :
  match getline input with
  | None => getlines input = []
  | Some (line, rest) => getlines input = line :: getlines rest
  end.
Proof.
  destruct input as [|c input]; [reflexivity|].
  cbn [getline]. revert c.
  induction input as [|d input IH]; intros c.
  - cbn. destruct (Ascii.eqb c newline); reflexivity.
  - specialize (IH d). cbn [until_newline getlines] in *.
    destruct (Ascii.eqb c newline); [reflexivity|].
    destruct (Ascii.eqb d newline).
    + reflexivity.
    + destruct (until_newline input) as [line rest].
      destruct (getlines input) as [|l ls].
      * injection IH as -> <-. reflexivity.
      * injection IH as -> <-. reflexivity.
Qed.

Lemma ingest_loop_from (lines : list chars) (first : dvec)
      (done : list dvec) :
  ingest_loop lines (first :: done)
  = if forallb (fun l => dimension_of l =? length first) lines
    then Ok ((first :: done) ++ map parse_line lines)
    else Throw mismatched_input_vector_dimensions.
Proof.
  revert done. induction lines as [|line lines IH]; intros done.
  - cbn. now rewrite app_nil_r.
  - cbn [ingest_loop forallb map]. unfold dimension_of at 1.
    rewrite (Nat.eqb_sym (length (parse_line line))).
    destruct (length first =? length (parse_line line)); cbn [negb andb].
    + change ((first :: done) ++ [parse_line line])
        with (first :: (done ++ [parse_line line])).
      rewrite IH. cbn [app]. now rewrite <- app_assoc.
    + reflexivity.
Qed.

(** [ingest_dvecs] in closed form: the vectors of all lines when every
    line has the dimension of the first, the exception otherwise. *)
Lemma ingest_dvecs_closed_form (input : chars) :
  ingest_dvecs input
  = match getlines input with
    | [] => Ok []
    | first :: rest =>
        if forallb (fun l => dimension_of l =? dimension_of first) rest
        then Ok (map parse_line (first :: rest))
        else Throw mismatched_input_vector_dimensions
    end.
Proof.
  unfold ingest_dvecs. destruct (getlines input) as [|first rest];
    [reflexivity|].
  cbn [ingest_loop app]. rewrite ingest_loop_from. reflexivity.
Qed.

Lemma forallb_first_failure {A : Type} (f : A -> bool) (l : list A) :
  forallb f l = false ->
  exists before x after,
    l = before ++ x :: after /\ forallb f before = true /\ f x = false.
Proof.
  induction l as [|a l IH]; [discriminate|].
  cbn. destruct (f a) eqn:Fa; cbn.
  - intros H. destruct (IH H) as (before & x & after & -> & Hb & Hx).
    exists (a :: before), x, after. cbn. rewrite Fa. auto.
  - intros _. exists [], a, l. auto.
Qed.

Lemma ingest_dvecs_ok_lines (input : chars) :
  match ingest_dvecs input with
  | Ok vecs => vecs = map parse_line (getlines input)
  | Throw _ => True
  end.
Proof.
  rewrite ingest_dvecs_closed_form.
  destruct (getlines input) as [|first rest]; [reflexivity|].
  destruct (forallb _ rest); [reflexivity | exact I].
Qed.

(** C3.  For every input stream, [ingest_dvecs] either returns the vectors
    of all lines, in line order, all of the dimension of the first one, or
    throws the dimension-mismatch error; it throws exactly when some line
    has another dimension than the first line, the lines before the first
    such line all having the dimension of the first.  No returned sequence
    mixes dimensions. *)
Theorem ingest_dvecs_uniform_or_mismatch (input : chars) :
  match ingest_dvecs input with
  | Ok vecs =>
      vecs = map parse_line (getlines input) /\
      Forall (fun v => length v = length (hd [] vecs)) vecs
  | Throw e =>
      e = mismatched_input_vector_dimensions /\
      DimensionMismatch e /\
      exists first before line after,
        getlines input = first :: before ++ line :: after /\
        Forall (fun l => dimension_of l = dimension_of first) before /\
        dimension_of line <> dimension_of first
  end.
Proof.
  rewrite ingest_dvecs_closed_form.
  destruct (getlines input) as [|first rest]; [split; [reflexivity|constructor]|].
  destruct (forallb _ rest) eqn:F.
  - split; [reflexivity|]. cbn [map hd]. constructor; [reflexivity|].
    rewrite forallb_forall in F. apply Forall_map, Forall_forall.
    intros l Hl. apply Nat.eqb_eq. exact (F l Hl).
  - split; [reflexivity|]. split; [now right|].
    destruct (forallb_first_failure _ rest F)
      as (before & line & after & -> & Hb & Hl).
    exists first, before, line, after. split; [reflexivity|]. split.
    + rewrite forallb_forall in Hb. apply Forall_forall.
      intros l Hin. apply Nat.eqb_eq. exact (Hb l Hin).
    + now apply Nat.eqb_neq.
Qed.

(** ** Lines without a number *)

Lemma skipws_spaces (s : chars) : forallb isspace s = true -> skipws s = [].
Proof.
  induction s as [|c s IH]; [reflexivity|]. cbn.
  destruct (isspace c); [exact IH | discriminate].
Qed.

Lemma skipws_spaces_app (ws s : chars) :
  forallb isspace ws = true -> skipws (ws ++ s) = skipws s.
Proof.
  induction ws as [|c ws IH]; [reflexivity|]. cbn.
  destruct (isspace c); [exact IH | discriminate].
Qed.

Lemma parse_line_no_number (line : chars) :
  extract_double line = None -> parse_line line = [].
Proof.
  intros H. unfold parse_line. cbn [read_doubles]. now rewrite H.
Qed.

Lemma eqb_zero_is_digit (c : ascii) :
  Ascii.eqb c "0" = true -> is_digit c = true.
Proof. intros H. apply Ascii.eqb_eq in H. now subst c. Qed.

Lemma extract_float_no_start (c : ascii) (rest : chars) :
  starts_number c = false -> extract_float (c :: rest) = ([], c :: rest).
Proof.
  unfold starts_number. intros H.
  apply orb_false_iff in H. destruct H as [H Hp].
  apply orb_false_iff in H. destruct H as [Hd Hs].
  unfold extract_float, extract_sign, extract_zeros. rewrite Hs.
  assert (Hz : Ascii.eqb c "0" = false).
  { destruct (Ascii.eqb c "0") eqn:E; [|reflexivity].
    apply eqb_zero_is_digit in E. congruence. }
  rewrite Hz. cbn [extract_main]. rewrite Hd, Hp.
  cbn [andb]. rewrite andb_false_r. reflexivity.
Qed.

Lemma extract_double_blank (line : chars) :
  forallb isspace line = true -> extract_double line = None.
Proof.
  intros H. unfold extract_double. now rewrite skipws_spaces.
Qed.

Lemma extract_double_no_start (ws : chars) (c : ascii) (rest : chars) :
  forallb isspace ws = true -> isspace c = false ->
  starts_number c = false ->
  extract_double (ws ++ c :: rest) = None.
Proof.
  intros Hws Hc Hn. unfold extract_double.
  rewrite skipws_spaces_app by exact Hws. cbn [skipws]. rewrite Hc.
  rewrite extract_float_no_start by exact Hn. reflexivity.
Qed.

Lemma forallb_Exists_false {A : Type} (f : A -> bool) (P : A -> Prop)
      (l : list A) :
  (forall x, P x -> f x = false) -> Exists P l -> forallb f l = false.
Proof.
  intros H E. induction E as [x l Hx|x l E IH]; cbn.
  - now rewrite (H x Hx).
  - rewrite IH. apply andb_false_r.
Qed.

Lemma ingest_throws_on (input first : chars) (rest : list chars) :
  getlines input = first :: rest ->
  Exists (fun l => dimension_of l <> dimension_of first) rest ->
  ingest_dvecs input = Throw mismatched_input_vector_dimensions.
Proof.
  intros Hl E. rewrite ingest_dvecs_closed_form, Hl.
  rewrite (forallb_Exists_false _ _ rest (fun l => proj2 (Nat.eqb_neq _ _)) E).
  reflexivity.
Qed.

(** C10.  A line without a number is not skipped.  A blank line, and a
    line whose first visible character cannot start a number, give the
    empty vector; every line of the stream gives one vector of the result;
    when the first line gives the empty vector a later line with a number
    makes [ingest_dvecs] throw the dimension-mismatch error; and after a
    first line with numbers, a line that gives the empty vector makes it
    throw, at that very line when the lines before it are accepted. *)
Theorem ingest_keeps_lines_without_number (input : chars) :
  (forall line, forallb isspace line = true -> parse_line line = []) /\
  (forall ws c rest,
      forallb isspace ws = true -> isspace c = false ->
      starts_number c = false -> parse_line (ws ++ c :: rest) = []) /\
  (forall vecs, ingest_dvecs input = Ok vecs ->
                length vecs = length (getlines input)) /\
  (forall first rest,
      getlines input = first :: rest ->
      parse_line first = [] ->
      Exists (fun l => parse_line l <> []) rest ->
      ingest_dvecs input = Throw mismatched_input_vector_dimensions) /\
  (forall first rest,
      getlines input = first :: rest ->
      parse_line first <> [] ->
      Exists (fun l => parse_line l = []) rest ->
      ingest_dvecs input = Throw mismatched_input_vector_dimensions) /\
  (forall first before line after,
      getlines input = first :: before ++ line :: after ->
      parse_line first <> [] ->
      Forall (fun l => dimension_of l = dimension_of first) before ->
      parse_line line = [] ->
      ingest_loop (first :: before) []
        = Ok (map parse_line (first :: before)) /\
      ingest_loop (first :: before ++ [line]) []
        = Throw mismatched_input_vector_dimensions).
Proof.
  split; [|split; [|split; [|split; [|split]]]].
  - intros line H. apply parse_line_no_number, extract_double_blank, H.
  - intros ws c rest Hws Hc Hn.
    apply parse_line_no_number, extract_double_no_start; assumption.
  - intros vecs H.
    pose proof (ingest_dvecs_ok_lines input) as K.
    rewrite H in K. rewrite K. apply length_map.
  - intros first rest Hl H0 E. apply (ingest_throws_on input first rest Hl).
    eapply Exists_impl; [|exact E]. intros l Hne. unfold dimension_of.
    rewrite H0. destruct (parse_line l) eqn:E'; [congruence | discriminate].
  - intros first rest Hl Hne E. apply (ingest_throws_on input first rest Hl).
    eapply Exists_impl; [|exact E]. intros l H0. unfold dimension_of.
    rewrite H0. destruct (parse_line first) eqn:E'; [congruence | discriminate].
  - intros first before line after _ Hne Hb H0.
    cbn [ingest_loop app]. rewrite !ingest_loop_from.
    assert (Fb : forallb (fun l => dimension_of l =? length (parse_line first))
                         before = true).
    { apply forallb_forall. intros l Hin. apply Nat.eqb_eq.
      rewrite Forall_forall in Hb. exact (Hb l Hin). }
    split.
    + now rewrite Fb.
    + rewrite forallb_app, Fb. cbn [forallb andb]. unfold dimension_of.
      rewrite H0. destruct (parse_line first) eqn:E'; [congruence | reflexivity].
Qed.

Lemma ingest_keeps_lines_without_number_witness :
  parse_line (text "   ") = [] /\
  parse_line (text " abc 1 2") = [] /\
  ingest_dvecs (text "
1 2") = Throw mismatched_input_vector_dimensions /\
  ingest_dvecs (text "1 2

3 4") = Throw mismatched_input_vector_dimensions.
Proof.
  split; [|split; [|split]].
  - apply (ingest_keeps_lines_without_number []). reflexivity.
  - apply (proj1 (proj2 (ingest_keeps_lines_without_number []))
                 [" "%char] "a"%char (text "bc 1 2")); reflexivity.
  - apply (proj1 (proj2 (proj2 (proj2
             (ingest_keeps_lines_without_number (text "
1 2")))))
             [] [text "1 2"]).
    + reflexivity.
    + reflexivity.
    + left. vm_compute. discriminate.
  - apply (proj1 (proj2 (proj2 (proj2 (proj2
             (ingest_keeps_lines_without_number (text "1 2

3 4"))))))
             (text "1 2") [[]; text "3 4"]).
    + reflexivity.
    + vm_compute. discriminate.
    + left. reflexivity.
Defined.

(* ================================================================== *)
(** * Rendering and reading back *)

Lemma identical_eq (x y : double) : identical x y = true -> x = y.
Proof.
  destruct x as [s|s| |s m e], y as [s'|s'| |s' m' e']; cbn;
    try discriminate; intros H.
  - apply Bool.eqb_prop in H. now subst.
  - apply Bool.eqb_prop in H. now subst.
  - reflexivity.
  - apply andb_true_iff in H. destruct H as [H He].
    apply andb_true_iff in H. destruct H as [Hs Hm].
    apply Bool.eqb_prop in Hs. apply Pos.eqb_eq in Hm. apply Z.eqb_eq in He.
    now subst.
Qed.

Lemma number_char_not_space (c : ascii) :
  number_char c = true -> isspace c = false.
Proof.
  destruct c as [[] [] [] [] [] [] [] []]; vm_compute; intros H;
    (reflexivity || discriminate H).
Qed.

Lemma number_char_kept (c : ascii) :
  number_char c = true -> negb (is_bracket_or_comma c) = true.
Proof.
  destruct c as [[] [] [] [] [] [] [] []]; vm_compute; intros H;
    (reflexivity || discriminate H).
Qed.

Lemma number_char_digit (c : ascii) : is_digit c = true -> number_char c = true.
Proof. unfold number_char. now intros ->. Qed.

Lemma number_char_point (c : ascii) : is_point c = true -> number_char c = true.
Proof. unfold number_char. intros ->. now rewrite orb_true_r. Qed.

Lemma number_char_exp (c : ascii) : is_exp c = true -> number_char c = true.
Proof. unfold number_char. intros ->. now rewrite !orb_true_r. Qed.

Lemma number_char_sign (c : ascii) : is_sign c = true -> number_char c = true.
Proof. unfold number_char. intros ->. now rewrite !orb_true_r. Qed.

Lemma number_char_zero (c : ascii) :
  Ascii.eqb c "0" = true -> number_char c = true.
Proof. intros H. apply number_char_digit, eqb_zero_is_digit, H. Qed.

(** ** What an extraction consumes *)

(** The main loop consumes a prefix made of number characters and
    accumulates one character for each. *)
Lemma extract_main_consumed (n : nat) :
  forall (s : chars) (fm fd fs : bool) (x r : chars),
    length s <= n ->
    extract_main fm fd fs s = (x, r) ->
    exists consumed,
      s = consumed ++ r /\ forallb number_char consumed = true /\
      length x = length consumed.
Proof.
  induction n as [|n IH]; intros [|c s'] fm fd fs x r Hn H;
    try (cbn in Hn; lia);
    try (cbn in H; injection H as <- <-; exists []; now auto).
  cbn [extract_main] in H. cbn [length] in Hn.
  destruct (is_digit c) eqn:Dc.
  { destruct (extract_main true fd fs s') as [x' r'] eqn:E.
    injection H as <- <-.
    destruct (IH s' _ _ _ _ _ ltac:(lia) E) as (k & -> & Hk & Hl).
    exists (c :: k). cbn. rewrite (number_char_digit c Dc), Hk, Hl. auto. }
  destruct (is_point c && negb fd && negb fs) eqn:Pc.
  { destruct (extract_main fm true fs s') as [x' r'] eqn:E.
    injection H as <- <-.
    apply andb_true_iff in Pc. destruct Pc as [Pc _].
    apply andb_true_iff in Pc. destruct Pc as [Pc _].
    destruct (IH s' _ _ _ _ _ ltac:(lia) E) as (k & -> & Hk & Hl).
    exists (c :: k). cbn. rewrite (number_char_point c Pc), Hk, Hl. auto. }
  destruct (is_exp c && negb fs && fm) eqn:Ec.
  { apply andb_true_iff in Ec. destruct Ec as [Ec _].
    apply andb_true_iff in Ec. destruct Ec as [Ec _].
    pose proof (number_char_exp c Ec) as Nc.
    destruct s' as [|c' s''].
    - injection H as <- <-. exists [c]. cbn. rewrite Nc. auto.
    - cbn [length] in Hn. destruct (is_sign c') eqn:Sc.
      + destruct (extract_main fm fd true s'') as [x' r'] eqn:E.
        injection H as <- <-.
        destruct (IH s'' _ _ _ _ _ ltac:(lia) E) as (k & -> & Hk & Hl).
        exists (c :: c' :: k). cbn.
        rewrite Nc, (number_char_sign c' Sc), Hk, Hl. auto.
      + destruct (extract_main fm fd true (c' :: s'')) as [x' r'] eqn:E.
        injection H as <- <-.
        destruct (IH (c' :: s'') _ _ _ _ _ ltac:(cbn; lia) E)
          as (k & Hs & Hk & Hl).
        exists (c :: k). cbn. rewrite Hs, Nc, Hk, Hl. auto. }
  injection H as <- <-. exists []. auto.
Qed.

Lemma skip_zeros_consumed (s : chars) :
  exists zs, s = zs ++ skip_zeros s /\ forallb number_char zs = true.
Proof.
  induction s as [|c s IH]; [exists []; auto|].
  cbn [skip_zeros]. destruct (Ascii.eqb c "0") eqn:Z.
  - destruct IH as (zs & Hs & Hz). exists (c :: zs). cbn.
    rewrite (number_char_zero c Z), Hz. split; [now f_equal | reflexivity].
  - exists []. auto.
Qed.

(** An extraction consumes a prefix made of number characters, at least
    as long as the text it accumulates. *)
Lemma extract_float_consumed (s x r : chars) :
  extract_float s = (x, r) ->
  exists consumed,
    s = consumed ++ r /\ forallb number_char consumed = true /\
    length x <= length consumed.
Proof.
  unfold extract_float.
  destruct (extract_sign s) as [sign s1] eqn:E1.
  destruct (extract_zeros s1) as [fm s2] eqn:E2.
  destruct (extract_main fm false false s2) as [x' r'] eqn:E3.
  intros H. injection H as <- <-.
  destruct (extract_main_consumed (length s2) s2 _ _ _ _ _ (le_n _) E3)
    as (k3 & Hs2 & Hk3 & Hl3).
  assert (H2 : exists k2, s1 = k2 ++ s2 /\ forallb number_char k2 = true /\
                          length (if fm then ["0"%char] else []) <= length k2).
  { unfold extract_zeros in E2. destruct s1 as [|c s1'].
    - injection E2 as <- <-. exists []. auto.
    - destruct (Ascii.eqb c "0") eqn:Z; injection E2 as <- <-.
      + cbn [skip_zeros]. rewrite Z.
        destruct (skip_zeros_consumed s1') as (zs & Hz & Fz).
        exists (c :: zs). cbn [app forallb length].
        rewrite (number_char_zero c Z), Fz. repeat split.
        * now f_equal.
        * lia.
      + exists []. auto. }
  destruct H2 as (k2 & Hs1 & Hk2 & Hl2).
  assert (H1 : exists k1, s = k1 ++ s1 /\ forallb number_char k1 = true /\
                          length sign = length k1).
  { unfold extract_sign in E1. destruct s as [|c s'].
    - injection E1 as <- <-. exists []. auto.
    - destruct (is_sign c) eqn:Sc; injection E1 as <- <-.
      + exists [c]. cbn. rewrite (number_char_sign c Sc). auto.
      + exists []. auto. }
  destruct H1 as (k1 & Hs & Hk1 & Hl1).
  exists (k1 ++ k2 ++ k3). repeat split.
  - rewrite Hs, Hs1, Hs2. now rewrite <- !app_assoc.
  - rewrite !forallb_app, Hk1, Hk2, Hk3. reflexivity.
  - rewrite !length_app. lia.
Qed.

(** ** An extraction that stops at the next character *)

Lemma number_char_false (c : ascii) :
  number_char c = false ->
  is_digit c = false /\ is_point c = false /\ is_exp c = false /\
  is_sign c = false.
Proof.
  unfold number_char. intros H.
  apply orb_false_iff in H. destruct H as [H Hs].
  apply orb_false_iff in H. destruct H as [H He].
  apply orb_false_iff in H. destruct H as [Hd Hp]. auto.
Qed.

Lemma extract_main_stop (fm fd fs : bool) (c : ascii) (more : chars) :
  number_char c = false ->
  extract_main fm fd fs (c :: more) = ([], c :: more).
Proof.
  intros H. destruct (number_char_false c H) as (Hd & Hp & He & _).
  cbn [extract_main]. rewrite Hd, Hp, He. reflexivity.
Qed.

(** When the main loop takes a whole text, it takes the same text, and
    stops, before a character that is no part of a number. *)
Lemma extract_main_before (n : nat) :
  forall (tok : chars) (fm fd fs : bool) (x : chars) (c : ascii)
         (more : chars),
    length tok <= n ->
    number_char c = false ->
    extract_main fm fd fs tok = (x, []) ->
    extract_main fm fd fs (tok ++ c :: more) = (x, c :: more).
Proof.
  induction n as [|n IH]; intros [|d tok'] fm fd fs x c more Hn Hc H;
    try (cbn in Hn; lia);
    try (cbn in H; injection H as <-; cbn [app];
         now apply extract_main_stop).
  cbn [length] in Hn. cbn [app]. cbn [extract_main] in H |- *.
  destruct (is_digit d).
  { destruct (extract_main true fd fs tok') as [x' r'] eqn:E.
    injection H as <- ->.
    now rewrite (IH tok' _ _ _ _ c more ltac:(lia) Hc E). }
  destruct (is_point d && negb fd && negb fs).
  { destruct (extract_main fm true fs tok') as [x' r'] eqn:E.
    injection H as <- ->.
    now rewrite (IH tok' _ _ _ _ c more ltac:(lia) Hc E). }
  destruct (is_exp d && negb fs && fm); [|discriminate H].
  destruct tok' as [|c' tok''].
  - injection H as <-. cbn [app].
    destruct (number_char_false c Hc) as (_ & _ & _ & Hs). rewrite Hs.
    now rewrite extract_main_stop.
  - cbn [length] in Hn. cbn [app]. destruct (is_sign c').
    + destruct (extract_main fm fd true tok'') as [x' r'] eqn:E.
      injection H as <- ->.
      now rewrite (IH tok'' _ _ _ _ c more ltac:(lia) Hc E).
    + destruct (extract_main fm fd true (c' :: tok'')) as [x' r'] eqn:E.
      injection H as <- ->.
      change (c' :: tok'' ++ c :: more) with ((c' :: tok'') ++ c :: more).
      now rewrite (IH (c' :: tok'') _ _ _ _ c more ltac:(cbn; lia) Hc E).
Qed.

Lemma skip_zeros_before (s : chars) (c : ascii) (more : chars) :
  number_char c = false ->
  skip_zeros (s ++ c :: more) = skip_zeros s ++ c :: more.
Proof.
  intros Hc. induction s as [|d s IH]; cbn.
  - destruct (Ascii.eqb c "0") eqn:Z; [|reflexivity].
    apply number_char_zero in Z. congruence.
  - destruct (Ascii.eqb d "0"); [exact IH | reflexivity].
Qed.

Lemma extract_sign_before (s : chars) (c : ascii) (more : chars) :
  number_char c = false ->
  extract_sign (s ++ c :: more)
  = (fst (extract_sign s), snd (extract_sign s) ++ c :: more).
Proof.
  intros Hc. destruct (number_char_false c Hc) as (_ & _ & _ & Hs).
  destruct s as [|d s]; cbn.
  - now rewrite Hs.
  - destruct (is_sign d); reflexivity.
Qed.

Lemma extract_zeros_before (s : chars) (c : ascii) (more : chars) :
  number_char c = false ->
  extract_zeros (s ++ c :: more)
  = (fst (extract_zeros s), snd (extract_zeros s) ++ c :: more).
Proof.
  intros Hc. destruct s as [|d s].
  - cbn. destruct (Ascii.eqb c "0") eqn:Z; [|reflexivity].
    apply number_char_zero in Z. congruence.
  - cbn [app extract_zeros]. destruct (Ascii.eqb d "0"); cbn [fst snd].
    + change (d :: s ++ c :: more) with ((d :: s) ++ c :: more).
      now rewrite skip_zeros_before.
    + reflexivity.
Qed.

(** The same for a whole extraction. *)
Lemma extract_float_before (tok x : chars) (c : ascii) (more : chars) :
  number_char c = false ->
  extract_float tok = (x, []) ->
  extract_float (tok ++ c :: more) = (x, c :: more).
Proof.
  intros Hc. unfold extract_float.
  rewrite extract_sign_before by exact Hc.
  destruct (extract_sign tok) as [sign s1]. cbn [fst snd].
  rewrite extract_zeros_before by exact Hc.
  destruct (extract_zeros s1) as [fm s2]. cbn [fst snd].
  destruct (extract_main fm false false s2) as [x' r'] eqn:E.
  intros H. injection H as <- ->.
  now rewrite (extract_main_before (length s2) s2 _ _ _ _ c more (le_n _) Hc E).
Qed.

(** ** Fuel *)

Lemma skipws_length (s : chars) : length (skipws s) <= length s.
Proof.
  induction s as [|c s IH]; [reflexivity|]. cbn.
  destruct (isspace c); cbn; lia.
Qed.

Lemma convert_to_v_nil : convert_to_v [] = None.
Proof. reflexivity. Qed.

(** An extraction that succeeds consumes at least one character. *)
Lemma extract_double_shorter (s : chars) (v : double) (rest : chars) :
  extract_double s = Some (v, rest) -> length rest < length s.
Proof.
  unfold extract_double. pose proof (skipws_length s) as Hs.
  destruct (skipws s) as [|c s'] eqn:E; [discriminate|].
  destruct (extract_float (c :: s')) as [x r] eqn:F.
  destruct (convert_to_v x) as [y|] eqn:C; [|discriminate].
  intros H. injection H as <- <-.
  destruct (extract_float_consumed _ _ _ F) as (k & Hk & _ & Hl).
  destruct x as [|x0 x]; [discriminate C|].
  apply (f_equal (@length ascii)) in Hk. rewrite length_app in Hk.
  cbn [length] in *. lia.
Qed.

(** [read_doubles] never runs out of fuel: any two amounts of fuel above
    the length of the text give the same vector. *)
Lemma read_doubles_fuel (f1 : nat) :
  forall (f2 : nat) (s : chars),
    length s < f1 -> length s < f2 ->
    read_doubles f1 s = read_doubles f2 s.
Proof.
  induction f1 as [|f1 IH]; intros [|f2] s H1 H2; try lia.
  cbn [read_doubles].
  destruct (extract_double s) as [[v rest]|] eqn:E; [|reflexivity].
  apply extract_double_shorter in E. f_equal. apply IH; lia.
Qed.

Lemma parse_line_fuel (fuel : nat) (line : chars) :
  length line < fuel -> read_doubles fuel line = parse_line line.
Proof.
  intros H. apply read_doubles_fuel; [exact H | apply Nat.lt_succ_diag_r].
Qed.

(** ** Elements that read back *)

Lemma reads_back_spec (x : double) :
  reads_back x = true ->
  exists xtrc,
    extract_float (format_double x) = (xtrc, []) /\
    convert_to_v xtrc = Some x.
Proof.
  unfold reads_back.
  destruct (extract_float (format_double x)) as [xtrc [|c r]] eqn:F;
    [|discriminate].
  destruct (convert_to_v xtrc) as [y|] eqn:C; [|discriminate].
  intros H. apply identical_eq in H. subst y. now exists xtrc.
Qed.

(** The rendering of an element that reads back is made of number
    characters and is not empty. *)
Lemma reads_back_text (x : double) :
  reads_back x = true ->
  forallb number_char (format_double x) = true /\
  exists c t, format_double x = c :: t.
Proof.
  intros H. destruct (reads_back_spec x H) as (xtrc & F & C).
  destruct (extract_float_consumed _ _ _ F) as (k & Hk & Fk & Hl).
  rewrite app_nil_r in Hk. subst k. split; [exact Fk|].
  destruct (format_double x) as [|c t]; [|now exists c, t].
  destruct xtrc as [|x0 xtrc]; [discriminate C | cbn in Hl; lia].
Qed.

Lemma space_no_number_char : number_char " " = false.
Proof. reflexivity. Qed.

Lemma extract_double_before_space (x : double) (more : chars) :
  reads_back x = true ->
  extract_double (format_double x ++ " "%char :: more)
  = Some (x, " "%char :: more).
Proof.
  intros H. destruct (reads_back_spec x H) as (xtrc & F & C).
  destruct (reads_back_text x H) as (Fk & c & t & E).
  unfold extract_double.
  assert (Hc : isspace c = false).
  { apply number_char_not_space. rewrite E in Fk. cbn in Fk.
    now apply andb_true_iff in Fk. }
  rewrite E at 1. cbn [app skipws]. rewrite Hc.
  change (c :: t ++ " "%char :: more) with ((c :: t) ++ " "%char :: more).
  rewrite <- E.
  rewrite (extract_float_before _ _ _ more space_no_number_char F).
  now rewrite C.
Qed.

Lemma extract_double_whole (x : double) :
  reads_back x = true ->
  extract_double (format_double x) = Some (x, []).
Proof.
  intros H. destruct (reads_back_spec x H) as (xtrc & F & C).
  destruct (reads_back_text x H) as (Fk & c & t & E).
  unfold extract_double.
  assert (Hc : isspace c = false).
  { apply number_char_not_space. rewrite E in Fk. cbn in Fk.
    now apply andb_true_iff in Fk. }
  rewrite E at 1. cbn [skipws]. rewrite Hc, <- E, F. now rewrite C.
Qed.

Lemma read_doubles_skip_space (fuel : nat) (s : chars) :
  read_doubles fuel (" "%char :: s) = read_doubles fuel s.
Proof. destruct fuel; reflexivity. Qed.

Lemma read_doubles_nil (fuel : nat) : read_doubles fuel [] = [].
Proof. destruct fuel; reflexivity. Qed.

(** Reading the renderings of elements that read back, one space between
    two of them, gives the elements. *)
Lemma read_joined (v : dvec) :
  Forall (fun x => reads_back x = true) v ->
  forall fuel, length (joined v) < fuel -> read_doubles fuel (joined v) = v.
Proof.
  induction v as [|x [|y rest] IH]; intros Hv fuel Hf.
  - apply read_doubles_nil.
  - inversion Hv as [|? ? Hx _]; subst.
    destruct fuel as [|fuel]; [lia|]. cbn [joined read_doubles].
    rewrite (extract_double_whole x Hx). now rewrite read_doubles_nil.
  - inversion Hv as [|? ? Hx Hrest]; subst.
    destruct fuel as [|fuel]; [lia|].
    change (joined (x :: y :: rest))
      with (format_double x ++ " "%char :: joined (y :: rest)) in *.
    cbn [read_doubles]. rewrite (extract_double_before_space x _ Hx).
    rewrite read_doubles_skip_space. f_equal.
    apply (IH Hrest). rewrite length_app in Hf. cbn [length] in Hf. lia.
Qed.

Lemma filter_all {A : Type} (f : A -> bool) (l : list A) :
  forallb f l = true -> filter f l = l.
Proof.
  induction l as [|a l IH]; [reflexivity|]. cbn.
  destruct (f a); [|discriminate]. intros H. now rewrite IH.
Qed.

Lemma ignore_in_number (x : double) :
  reads_back x = true ->
  ignore_brackets_commas (format_double x) = format_double x.
Proof.
  intros H. destruct (reads_back_text x H) as (Fk & _).
  apply filter_all. rewrite forallb_forall in *.
  intros c Hc. apply number_char_kept, Fk, Hc.
Qed.

Lemma ignore_render_elements (x : double) (rest : dvec) :
  Forall (fun x => reads_back x = true) (x :: rest) ->
  ignore_brackets_commas (render_elements (x :: rest)) = joined (x :: rest).
Proof.
  revert x. induction rest as [|y rest IH]; intros x Hv;
    inversion Hv as [|? ? Hx Hrest]; subst.
  - cbn [render_elements joined]. unfold ignore_brackets_commas.
    rewrite filter_app. fold (ignore_brackets_commas (format_double x)).
    rewrite (ignore_in_number x Hx). cbn. apply app_nil_r.
  - change (render_elements (x :: y :: rest))
      with (format_double x ++ text ", " ++ render_elements (y :: rest)).
    change (joined (x :: y :: rest))
      with (format_double x ++ " "%char :: joined (y :: rest)).
    unfold ignore_brackets_commas. rewrite !filter_app.
    fold (ignore_brackets_commas (format_double x)).
    fold (ignore_brackets_commas (render_elements (y :: rest))).
    rewrite (ignore_in_number x Hx), (IH y Hrest). reflexivity.
Qed.

Lemma ignore_render (v : dvec) :
  Forall (fun x => reads_back x = true) v ->
  ignore_brackets_commas (render v) = joined v.
Proof.
  intros Hv. destruct v as [|x rest]; [reflexivity|].
  unfold render. cbn [length Nat.eqb].
  change (text "[" ++ render_elements (x :: rest))
    with ("["%char :: render_elements (x :: rest)).
  unfold ignore_brackets_commas. cbn [filter].
  change (negb (is_bracket_or_comma "[")) with false. cbn iota.
  now apply ignore_render_elements.
Qed.

(** C9, as amended.  For every vector [v] each of whose elements reads
    back from its own rendering (the text written for it with six
    significant digits converts to the element itself), rendering [v] and
    reading the text as a line of numbers, its brackets and commas
    ignored, gives [v]. *)
Theorem render_parse_round_trip (v : dvec) :
  Forall (fun x => reads_back x = true) v ->
  parse_line (ignore_brackets_commas (render v)) = v.
Proof.
  intros Hv. rewrite (ignore_render v Hv). unfold parse_line.
  apply (read_joined v Hv). apply Nat.lt_succ_diag_r.
Qed.

Lemma render_parse_round_trip_witness :
  render readable_vector = text "[1, 0.5, -2.5, 3e+06, 0]" /\
  parse_line (ignore_brackets_commas (render readable_vector))
  = readable_vector.
Proof.
  split; [vm_compute; reflexivity|].
  apply (render_parse_round_trip readable_vector).
  repeat constructor.
Defined.

(** C9, as stated, fails: a stream writes six significant digits.  The
    vector [(1234567)] is rendered as ["[1.23457e+06]"], which reads as
    [1234570]; the two vectors are not [==]. *)
Lemma render_parse_loses_digits :
  render [of_Z 1234567] = text "[1.23457e+06]" /\
  parse_line (ignore_brackets_commas (render [of_Z 1234567]))
  = [of_Z 1234570] /\
  dvec_eqb (parse_line (ignore_brackets_commas (render [of_Z 1234567])))
           [of_Z 1234567] = false.
Proof.
  repeat split; vm_compute; reflexivity.
Qed.

(* ================================================================== *)
(** * The test cases of the program *)

(** The inputs of the examples are values a [double] can hold. *)
Example example_inputs_valid :
  forallb (forallb valid)
          (parallel_vectors ++ zero_one_two ++ one_to_seven
             ++ [readable_vector; [of_Z 1234567]; [one; one; one]]) = true.
Proof. vm_compute. reflexivity. Qed.

(** [TEST_CASE("ingest_dvecs")]. *)
Example test_ingest_dvecs :
  ingest_dvecs (text "1 2 3
4 5 6
7 8 9
10 11 12
13 14 15")
  = Ok [[of_Z 1; of_Z 2; of_Z 3]; [of_Z 4; of_Z 5; of_Z 6];
        [of_Z 7; of_Z 8; of_Z 9]; [of_Z 10; of_Z 11; of_Z 12];
        [of_Z 13; of_Z 14; of_Z 15]].
Proof. vm_compute. reflexivity. Qed.

(** [TEST_CASE("pairwise_elts")]: ten pairs, none of a vector with an
    equal one. *)
Example test_pairwise_elts :
  let input := [[of_Z 1; of_Z 2; of_Z 3]; [of_Z 4; of_Z 5; of_Z 6];
                [of_Z 7; of_Z 8; of_Z 9]; [of_Z 10; of_Z 11; of_Z 12];
                [of_Z 13; of_Z 14; of_Z 15]] in
  length (pairwise_elts input) = 10 /\
  forallb (fun p => negb (dvec_eqb (fst p) (snd p))) (pairwise_elts input)
  = true.
Proof. split; vm_compute; reflexivity. Qed.

(** The program reads a rendered vector as it stands: the opening bracket
    is no number, and the line gives the empty vector. *)
Example parse_rendered_vector :
  parse_line (render [of_Z 1; of_Z 2; of_Z 3]) = [].
Proof. vm_compute. reflexivity. Qed.

(** A second element of the test input has an angle with itself that is
    NaN: [(10, 11, 12)]. *)
Example theta_self_test_vector (acos_in_domain : double -> double) :
  theta acos_in_domain [of_Z 10; of_Z 11; of_Z 12]
                       [of_Z 10; of_Z 11; of_Z 12] = Ok nan.
Proof. rewrite theta_self. now rewrite acos_above_one. Qed.

(** Every integer of up to four digits, of either sign, reads back from
    its rendering. *)
Example small_integers_read_back :
  integers_read_back (Z.to_nat 10000) 0 = true.
Proof. vm_compute. reflexivity. Qed.

(** The norm of a vector whose squares overflow is [+inf]. *)
Example norm_overflow : norm [of_Z (10 ^ 200)] = Ok (S754_infinity false).
Proof. vm_compute. reflexivity. Qed.

(** Empty input gives the empty sequence, not an error. *)
Example ingest_empty : ingest_dvecs [] = Ok [].
Proof. reflexivity. Qed.

(* ================================================================== *)
(** * Further properties of the vector operations *)

(** X1.  [dot] is commutative, with either loop: [dot(a, b)] and
    [dot(b, a)] are the same value, or the same exception when the sizes
    differ. *)
Theorem dot_commutative (a b : dvec) :
  dot a b = dot b a /\ dot_nozip a b = dot_nozip b a.
Proof.
  split; [apply dot_comm|]. rewrite !dot_nozip_dot. apply dot_comm.
Qed.

(** ** The zero vector *)

Lemma mul_zero_l (x y : double) :
  is_zero x = true -> zero_or_nan (mul x y).
Proof.
  destruct x as [s|s| |s m e]; try discriminate. intros _.
  destruct y; exact I.
Qed.

Lemma add_zero_or_nan (x y : double) :
  zero_or_nan x -> zero_or_nan y -> zero_or_nan (add x y).
Proof.
  destruct x as [sx|sx| |sx mx ex]; try contradiction;
    destruct y as [sy|sy| |sy my ey]; try contradiction; intros _ _;
    try exact I.
  destruct sx, sy; exact I.
Qed.

Lemma div_zero_or_nan (x y : double) :
  zero_or_nan x -> zero_or_nan y -> div x y = nan.
Proof.
  destruct x as [sx|sx| |sx mx ex]; try contradiction;
    destruct y as [sy|sy| |sy my ey]; try contradiction; reflexivity.
Qed.

Lemma zip_zero_l (a b : dvec) (acc : double) :
  forallb is_zero a = true -> zero_or_nan acc ->
  zero_or_nan
    (fold_left (fun acc xy => add acc (mul (fst xy) (snd xy)))
               (combine a b) acc).
Proof.
  revert b acc. induction a as [|x a IH]; intros [|y b] acc Ha Hacc;
    try exact Hacc.
  cbn [forallb] in Ha. apply andb_true_iff in Ha. destruct Ha as [Hx Ha].
  cbn. apply IH; [exact Ha|].
  apply add_zero_or_nan; [exact Hacc | now apply mul_zero_l].
Qed.

Lemma zip_zero_self (a : dvec) :
  forallb is_zero a = true ->
  fold_left (fun acc xy => add acc (mul (fst xy) (snd xy)))
            (combine a a) zero = zero.
Proof.
  induction a as [|x a IH]; [reflexivity|]. intros Ha.
  cbn [forallb] in Ha. apply andb_true_iff in Ha. destruct Ha as [Hx Ha].
  destruct x as [s|s| |s m e]; try discriminate.
  cbn [combine fold_left fst snd]. destruct s; exact (IH Ha).
Qed.

(** X2.  The angle with a zero vector is NaN: when every element of [a] is
    a zero, [theta(a, b)] and [theta(b, a)] return NaN for every [b] of the
    same length, the division by the zero norm being left to the
    arithmetic. *)
Theorem theta_zero_vector (acos_in_domain : double -> double) (a b : dvec) :
  forallb is_zero a = true ->
  length a = length b ->
  theta acos_in_domain a b = Ok nan /\ theta acos_in_domain b a = Ok nan.
Proof.
  intros Ha Hl.
  assert (Hd : zero_or_nan (dot_zip_loop a b))
    by (apply zip_zero_l; [exact Ha | exact I]).
  assert (Hn : sqrt (dot_zip_loop a a) = zero).
  { unfold dot_zip_loop. now rewrite zip_zero_self. }
  assert (E : theta acos_in_domain a b = Ok nan).
  { unfold theta, dot. rewrite assert_compatible_ok by exact Hl.
    rewrite !norm_self, Hn. cbn [bind].
    rewrite div_zero_or_nan; [reflexivity | exact Hd |].
    now apply mul_zero_l. }
  split; [exact E|].
  unfold theta, dot. rewrite assert_compatible_ok by (symmetry; exact Hl).
  rewrite !norm_self, Hn. cbn [bind].
  unfold dot_zip_loop. rewrite (zip_loop_comm b a).
  rewrite (mul_comm (sqrt _) zero).
  rewrite div_zero_or_nan; [reflexivity | exact Hd |].
  now apply mul_zero_l.
Qed.

Lemma theta_zero_vector_witness :
  theta unused_acos [zero; S754_zero true] [of_Z 3; of_Z 4] = Ok nan /\
  theta unused_acos [of_Z 3; of_Z 4] [zero; S754_zero true] = Ok nan.
Proof.
  apply (theta_zero_vector unused_acos [zero; S754_zero true]
                           [of_Z 3; of_Z 4]); reflexivity.
Defined.

(** ** Equality of vectors *)

Lemma eqb_sym (x y : double) : eqb x y = eqb y x.
Proof.
  unfold eqb, SFeqb. rewrite (SFcompare_antisym y x).
  destruct (SFcompare y x) as [[]|]; reflexivity.
Qed.

Lemma eqb_self (x : double) : eqb x x = negb (is_nan x).
Proof.
  destruct (is_nan x) eqn:N.
  - destruct x; try discriminate N. reflexivity.
  - now apply eqb_refl_number.
Qed.

(** X3.  The defaulted [operator==] is symmetric; a vector compares equal
    to itself exactly when it holds no NaN; and two vectors that compare
    equal have the same length. *)
Theorem dvec_eqb_properties (a b : dvec) :
  dvec_eqb a b = dvec_eqb b a /\
  dvec_eqb a a = forallb (fun x => negb (is_nan x)) a /\
  (dvec_eqb a b = true -> length a = length b).
Proof.
  split; [|split].
  - revert b. induction a as [|x a IH]; intros [|y b]; try reflexivity.
    cbn. now rewrite eqb_sym, IH.
  - induction a as [|x a IH]; [reflexivity|]. cbn.
    now rewrite eqb_self, IH.
  - revert b. induction a as [|x a IH]; intros [|y b] H;
      try discriminate H; [reflexivity|].
    cbn in H. apply andb_true_iff in H. destruct H as [_ H].
    cbn. f_equal. now apply IH.
Qed.

Lemma dvec_eqb_properties_witness :
  length [zero; one] = length [S754_zero true; one].
Proof.
  apply (dvec_eqb_properties [zero; one] [S754_zero true; one]).
  reflexivity.
Defined.

(* ================================================================== *)
(** * Further properties of ingestion *)

(** ** The last line *)






(** ** What follows the numbers of a line *)

Lemma extract_main_suffix (n : nat) :
  forall (a : chars) (fm fd fs : bool) (x r : chars) (c : ascii)
         (more : chars),
    length a <= n ->
    number_char c = false ->
    extract_main fm fd fs a = (x, r) ->
    extract_main fm fd fs (a ++ c :: more) = (x, r ++ c :: more).
Proof.
  induction n as [|n IH]; intros [|d a'] fm fd fs x r c more Hn Hc H;
    try (cbn in Hn; lia);
    try (cbn in H; injection H as <- <-; cbn [app];
         now apply extract_main_stop).
  cbn [length] in Hn. cbn [app]. cbn [extract_main] in H |- *.
  destruct (is_digit d).
  { destruct (extract_main true fd fs a') as [x' r'] eqn:E.
    injection H as <- <-.
    now rewrite (IH a' _ _ _ _ _ c more ltac:(lia) Hc E). }
  destruct (is_point d && negb fd && negb fs).
  { destruct (extract_main fm true fs a') as [x' r'] eqn:E.
    injection H as <- <-.
    now rewrite (IH a' _ _ _ _ _ c more ltac:(lia) Hc E). }
  destruct (is_exp d && negb fs && fm);
    [|injection H as <- <-; reflexivity].
  destruct a' as [|c' a''].
  - injection H as <- <-. cbn [app].
    destruct (number_char_false c Hc) as (_ & _ & _ & Hs). rewrite Hs.
    now rewrite extract_main_stop.
  - cbn [length] in Hn. cbn [app]. destruct (is_sign c').
    + destruct (extract_main fm fd true a'') as [x' r'] eqn:E.
      injection H as <- <-.
      now rewrite (IH a'' _ _ _ _ _ c more ltac:(lia) Hc E).
    + destruct (extract_main fm fd true (c' :: a'')) as [x' r'] eqn:E.
      injection H as <- <-.
      change (c' :: a'' ++ c :: more) with ((c' :: a'') ++ c :: more).
      now rewrite (IH (c' :: a'') _ _ _ _ _ c more ltac:(cbn; lia) Hc E).
Qed.

Lemma extract_float_suffix (a : chars) (c : ascii) (more : chars) :
  number_char c = false ->
  extract_float (a ++ c :: more)
  = (fst (extract_float a), snd (extract_float a) ++ c :: more).
Proof.
  intros Hc. unfold extract_float.
  rewrite extract_sign_before by exact Hc.
  destruct (extract_sign a) as [sign s1]. cbn [fst snd].
  rewrite extract_zeros_before by exact Hc.
  destruct (extract_zeros s1) as [fm s2]. cbn [fst snd].
  destruct (extract_main fm false false s2) as [x' r'] eqn:E.
  now rewrite (extract_main_suffix (length s2) s2 _ _ _ _ _ c more
                                   (le_n _) Hc E).
Qed.

Lemma parse_line_unfold (s : chars) :
  parse_line s
  = match extract_double s with
    | Some (v, rest) => v :: parse_line rest
    | None => []
    end.
Proof.
  unfold parse_line at 1. cbn [read_doubles].
  destruct (extract_double s) as [[v rest]|] eqn:E; [|reflexivity].
  f_equal. apply parse_line_fuel.
  apply extract_double_shorter in E. lia.
Qed.

Lemma skipws_app_visible (a t : chars) (d : ascii) (a' : chars) :
  skipws a = d :: a' -> skipws (a ++ t) = d :: a' ++ t.
Proof.
  induction a as [|e a IH]; [discriminate|]. cbn.
  destruct (isspace e); [exact IH|]. intros H. injection H as <- <-.
  reflexivity.
Qed.

Lemma skipws_app_blank (a t : chars) :
  skipws a = [] -> skipws (a ++ t) = skipws t.
Proof.
  induction a as [|e a IH]; [reflexivity|]. cbn.
  destruct (isspace e); [exact IH | discriminate].
Qed.

Lemma not_number_no_start (c : ascii) :
  number_char c = false -> starts_number c = false.
Proof.
  intros H. destruct (number_char_false c H) as (Hd & Hp & _ & Hs).
  unfold starts_number. now rewrite Hd, Hp, Hs.
Qed.

Lemma parse_line_cut (n : nat) :
  forall (a : chars) (c : ascii) (rest : chars),
    length a <= n ->
    number_char c = false -> isspace c = false ->
    parse_line (a ++ c :: rest) = parse_line a.
Proof.
  induction n as [|n IH]; intros a c rest Hn Hc Hs;
    rewrite (parse_line_unfold (a ++ c :: rest)), (parse_line_unfold a);
    unfold extract_double.
  - destruct a; [|cbn in Hn; lia]. cbn [app skipws]. rewrite Hs.
    rewrite extract_float_no_start by now apply not_number_no_start.
    reflexivity.
  - destruct (skipws a) as [|d a'] eqn:E.
    + rewrite (skipws_app_blank a (c :: rest) E). cbn [skipws]. rewrite Hs.
      rewrite extract_float_no_start by now apply not_number_no_start.
      reflexivity.
    + rewrite (skipws_app_visible a (c :: rest) d a' E).
      change (d :: a' ++ c :: rest) with ((d :: a') ++ c :: rest).
      rewrite extract_float_suffix by exact Hc.
      destruct (extract_float (d :: a')) as [x r] eqn:F. cbn [fst snd].
      destruct (convert_to_v x) as [v|] eqn:C; [|reflexivity].
      f_equal. apply IH; [|exact Hc|exact Hs].
      destruct (extract_float_consumed _ _ _ F) as (k & Hk & _ & Hl).
      destruct x as [|x0 x]; [discriminate C|].
      apply (f_equal (@length ascii)) in Hk. rewrite length_app in Hk.
      pose proof (skipws_length a) as La. rewrite E in La.
      cbn [length] in *. lia.
Qed.

(** X5.  The vector of a line ends at the first text that is no number:
    whatever follows a character that is neither white space nor part of a
    number is ignored, without an error. *)
Theorem parse_line_ignores_rest (a : chars) (c : ascii) (rest : chars) :
  number_char c = false -> isspace c = false ->
  parse_line (a ++ c :: rest) = parse_line a.
Proof. apply (parse_line_cut (length a)). apply le_n. Qed.

Lemma parse_line_ignores_rest_witness :
  parse_line (text "1 2.5 x 3 4") = parse_line (text "1 2.5 ").
Proof.
  apply (parse_line_ignores_rest (text "1 2.5 ") "x"%char (text " 3 4"));
    reflexivity.
Defined.

(** ** The numbers of a line *)

Lemma binary_round_aux_not_nan (s : bool) (m e : Z) (l : location) :
  (0 <= m)%Z -> is_nan (binary_round_aux prec emax s m e l) = false.
Proof.
  intros Hm. pose proof (binary_round_aux_sign s m e l Hm) as H.
  destruct (binary_round_aux prec emax s m e l); try reflexivity.
  contradiction.
Qed.

Lemma binary_normalize_not_nan (z e : Z) (s : bool) :
  is_nan (binary_normalize prec emax z e s) = false.
Proof.
  destruct z as [|p|p]; [reflexivity| |];
    unfold binary_normalize, binary_round;
    destruct (shl_align _ _ _) as [mz ez];
    apply binary_round_aux_not_nan; lia.
Qed.

Lemma div_eucl_fst_nonneg (a b : Z) :
  (0 <= a)%Z -> (0 < b)%Z -> (0 <= fst (Z.div_eucl a b))%Z.
Proof.
  intros Ha Hb. pose proof (Z.div_pos a b Ha Hb) as H.
  unfold Z.div in H. destruct (Z.div_eucl a b). exact H.
Qed.

Lemma div_finite_not_nan (sx sy : bool) (mx my : positive) (ex ey : Z) :
  is_nan (div (S754_finite sx mx ex) (S754_finite sy my ey)) = false.
Proof.
  unfold div, SFdiv, SFdiv_core_binary.
  match goal with
  | |- context [Z.div_eucl ?a ?b] =>
      assert (Hq : (0 <= fst (Z.div_eucl a b))%Z);
      [ apply div_eucl_fst_nonneg; [|lia]
      | destruct (Z.div_eucl a b) as [q r] ]
  end.
  - match goal with
    | |- (0 <= match ?s with _ => _ end)%Z => destruct s
    end; try lia.
    apply Z.shiftl_nonneg. lia.
  - cbn [fst] in Hq. now apply binary_round_aux_not_nan.
Qed.

Lemma decimal_to_double_not_nan (neg : bool) (m e : Z) :
  is_nan (decimal_to_double neg m e) = false.
Proof.
  unfold decimal_to_double. destruct m as [|p|p]; try reflexivity.
  destruct (0 <=? e)%Z.
  - apply binary_normalize_not_nan.
  - apply div_finite_not_nan.
Qed.

Lemma strtod_not_nan (s : chars) (v : double) (r : chars) :
  strtod s = Some (v, r) -> is_nan v = false.
Proof.
  unfold strtod.
  repeat match goal with
         | |- context [let '(_, _) := ?t in _] => destruct t
         end.
  destruct (_ ++ _); [discriminate|].
  repeat match goal with
         | |- context [let '(_, _) := ?t in _] => destruct t
         end.
  intros H. injection H as <- _. apply decimal_to_double_not_nan.
Qed.

Lemma convert_to_v_finite (xtrc : chars) (v : double) :
  convert_to_v xtrc = Some v -> is_finite v = true.
Proof.
  unfold convert_to_v.
  destruct (strtod xtrc) as [[v' [|c r]]|] eqn:E; try discriminate.
  apply strtod_not_nan in E.
  destruct v'; try discriminate; intros H; injection H as <-; reflexivity.
Qed.

Lemma read_doubles_finite (fuel : nat) :
  forall s, Forall (fun x => is_finite x = true) (read_doubles fuel s).
Proof.
  induction fuel as [|fuel IH]; intros s; cbn [read_doubles]; [constructor|].
  destruct (extract_double s) as [[v rest]|] eqn:E; [|constructor].
  constructor; [|apply IH].
  unfold extract_double in E.
  destruct (skipws s) as [|c s']; [discriminate|].
  destruct (extract_float (c :: s')) as [x r].
  destruct (convert_to_v x) as [y|] eqn:C; [|discriminate].
  injection E as <- _. exact (convert_to_v_finite x y C).
Qed.

Lemma finite_not_nan (v : dvec) :
  Forall (fun x => is_finite x = true) v ->
  Forall (fun x => is_nan x = false) v.
Proof.
  apply Forall_impl. intros x H. destruct x; try discriminate; reflexivity.
Qed.

(** X6.  Every component of an ingested vector is a finite number (no
    text is read as NaN or as an infinity), so the norm of every ingested
    vector is a number that is not negative. *)
Theorem ingested_components_finite (input : chars) (vecs : list dvec) :
  ingest_dvecs input = Ok vecs ->
  Forall (fun v => Forall (fun x => is_finite x = true) v /\
                   exists r, norm v = Ok r /\ leb zero r = true) vecs.
Proof.
  intros H. pose proof (ingest_dvecs_ok_lines input) as K.
  rewrite H in K. subst vecs. apply Forall_map, Forall_forall.
  intros line _.
  pose proof (read_doubles_finite (S (length line)) line) as F.
  fold (parse_line line) in F. split; [exact F|].
  exists (sqrt (dot_zip_loop (parse_line line) (parse_line line))).
  split; [apply norm_self|].
  apply nonneg_number_leb, sqrt_nonneg, zip_self_nonneg;
    [now apply finite_not_nan | reflexivity].
Qed.

Lemma ingested_components_finite_witness :
  Forall (fun v => Forall (fun x => is_finite x = true) v /\
                   exists r, norm v = Ok r /\ leb zero r = true)
         [[of_Z 3; of_Z 4]; [of_Z 6; of_Z 8]].
Proof.
  apply (ingested_components_finite (text "3 4
6 8")).
  vm_compute. reflexivity.
Defined.

(** X7.  The vectors [ingest_dvecs] returns have one dimension, so
    [theta] throws on no pair [pairwise_elts] makes of them: after an
    ingestion that succeeds, the dimension error of [dvec] cannot
    arise. *)
Theorem ingested_pairs_have_angles (acos_in_domain : double -> double)
        (input : chars) (vecs : list dvec) :
  ingest_dvecs input = Ok vecs ->
  exists n, same_dimension n vecs /\
            forall p, In p (pairwise_elts vecs) ->
                      exists t, theta acos_in_domain (fst p) (snd p) = Ok t.
Proof.
  intros H. rewrite ingest_dvecs_closed_form in H.
  assert (D : exists n, same_dimension n vecs).
  { destruct (getlines input) as [|first rest].
    - injection H as <-. exists 0. constructor.
    - destruct (forallb _ rest) eqn:F; [|discriminate].
      injection H as <-. exists (dimension_of first).
      cbn [map]. constructor; [reflexivity|].
      apply Forall_map, Forall_forall. intros l Hl.
      rewrite forallb_forall in F. apply Nat.eqb_eq, F, Hl. }
  destruct D as [n D]. exists n. split; [exact D|].
  intros p Hp. eexists.
  apply (pairs_have_angles acos_in_domain n vecs p D Hp).
Qed.

Lemma ingested_pairs_have_angles_witness :
  exists n, same_dimension n [[of_Z 3; of_Z 4]; [of_Z 6; of_Z 8]] /\
            forall p, In p (pairwise_elts [[of_Z 3; of_Z 4]; [of_Z 6; of_Z 8]]) ->
                      exists t, theta unused_acos (fst p) (snd p) = Ok t.
Proof.
  apply (ingested_pairs_have_angles unused_acos (text "3 4
6 8")).
  vm_compute. reflexivity.
Defined.

(* ================================================================== *)
(** * Further properties of the pair enumeration *)

Lemma all_pairs_NoDup (vecs : list dvec) :
  NoDup vecs -> NoDup (all_pairs vecs).
Proof.
  induction 1 as [|x after Hx Hafter IH]; [constructor|].
  cbn [all_pairs]. apply NoDup_app.
  - clear - Hafter. induction Hafter as [|y l Hy Hl IH]; cbn; constructor.
    + intros H. apply in_map_iff in H. destruct H as (z & E & Hz).
      injection E as ->. contradiction.
    + exact IH.
  - exact IH.
  - intros p H1 H2. apply in_map_iff in H1. destruct H1 as (y & <- & _).
    apply in_all_pairs in H2. cbn in H2. destruct H2 as [H2 _].
    contradiction.
Qed.

Lemma all_pairs_one_way (vecs : list dvec) (a b : dvec) :
  NoDup vecs -> In (a, b) (all_pairs vecs) ->
  a <> b /\ ~ In (b, a) (all_pairs vecs).
Proof.
  induction 1 as [|x after Hx Hafter IH]; [contradiction|].
  cbn [all_pairs]. intros H. apply in_app_or in H. destruct H as [H|H].
  - apply in_map_iff in H. destruct H as (y & E & Hy). injection E as <- <-.
    split; [intros ->; contradiction|].
    intros K. apply in_app_or in K. destruct K as [K|K].
    + apply in_map_iff in K. destruct K as (z & E & Hz).
      injection E as -> ->. contradiction.
    + apply in_all_pairs in K. cbn in K. destruct K as [_ K]. contradiction.
  - destruct (IH H) as [Hne Hno]. split; [exact Hne|].
    intros K. apply in_app_or in K. destruct K as [K|K]; [|contradiction].
    apply in_map_iff in K. destruct K as (z & E & Hz). injection E as -> ->.
    apply in_all_pairs in H. cbn in H. destruct H as [_ H]. contradiction.
Qed.

Lemma all_pairs_of_duplicate (pre mid post : list dvec) (v : dvec) :
  In (v, v) (all_pairs (pre ++ v :: mid ++ v :: post)).
Proof.
  induction pre as [|x pre IH]; cbn [app all_pairs]; apply in_or_app.
  - left. apply in_map. apply in_elt.
  - right. exact IH.
Qed.

(** X8.  The pairs are unique by position.  Of vectors that are pairwise
    different, [pairwise_elts] returns every pair once, never a vector
    with itself and never a pair together with its mirror image; of a
    sequence that holds a vector twice it returns that vector paired with
    itself. *)
Theorem pairwise_elts_unique (vecs : list dvec) :
  (NoDup vecs ->
   NoDup (pairwise_elts vecs) /\
   forall a b, In (a, b) (pairwise_elts vecs) ->
               a <> b /\ ~ In (b, a) (pairwise_elts vecs)) /\
  (forall pre mid post v,
      vecs = pre ++ v :: mid ++ v :: post ->
      In (v, v) (pairwise_elts vecs)).
Proof.
  rewrite pairwise_elts_all_pairs. split.
  - intros H. split; [now apply all_pairs_NoDup|].
    intros a b. now apply all_pairs_one_way.
  - intros pre mid post v ->. apply all_pairs_of_duplicate.
Qed.

Lemma pairwise_elts_unique_witness :
  NoDup (pairwise_elts parallel_vectors) /\
  In ([one], [one]) (pairwise_elts [[one]; [zero]; [one]]).
Proof.
  split.
  - apply (pairwise_elts_unique parallel_vectors).
    repeat constructor; cbn; intros H;
      repeat (destruct H as [H|H]; [discriminate H|]); exact H.
  - apply (proj2 (pairwise_elts_unique [[one]; [zero]; [one]])
                 [] [[zero]] [] [one]).
    reflexivity.
Defined.

(* ================================================================== *)
(** * Further properties of the rendering *)

Lemma render_elements_join (x : double) (rest : dvec) :
  render_elements (x :: rest)
  = join (text ", ") (map format_double (x :: rest)) ++ text "]".
Proof.
  revert x. induction rest as [|y rest IH]; intros x; [reflexivity|].
  change (render_elements (x :: y :: rest))
    with (format_double x ++ text ", " ++ render_elements (y :: rest)).
  rewrite IH.
  change (join (text ", ") (map format_double (x :: y :: rest)))
    with (format_double x ++ text ", "
            ++ join (text ", ") (map format_double (y :: rest))).
  now rewrite <- !app_assoc.
Qed.

(** X9.  For a vector of any length, the empty one included,
    [operator<<] writes an opening bracket, the texts of the elements with
    a comma and a space between two of them, and a closing bracket. *)
Theorem render_is_join (v : dvec) :
  render v = text "[" ++ join (text ", ") (map format_double v) ++ text "]".
Proof.
  destruct v as [|x rest]; [reflexivity|].
  unfold render. cbn [length Nat.eqb]. now rewrite render_elements_join.
Qed.

(* ================================================================== *)
(** * The program as a whole *)

Lemma stream_line_ok (acos_in_domain : double -> double) (out : chars)
      (p : dvec * dvec) :
  theta acos_in_domain (fst p) (snd p) = Ok (angle_of acos_in_domain p) ->
  stream_line acos_in_domain out p
  = {| written := out ++ output_line acos_in_domain p; outcome := Ok 0%Z |}.
Proof.
  intros H. unfold stream_line, output_line. rewrite H.
  f_equal. now rewrite <- !app_assoc.
Qed.

Lemma format_line_ok (acos_in_domain : double -> double) (out : chars)
      (p : dvec * dvec) :
  theta acos_in_domain (fst p) (snd p) = Ok (angle_of acos_in_domain p) ->
  format_line acos_in_domain out p
  = {| written := out ++ output_line acos_in_domain p; outcome := Ok 0%Z |}.
Proof.
  intros H. unfold format_line, output_line, formatter_format. rewrite H.
  cbn [formatter_parse text list_ascii_of_string app Ascii.eqb Bool.eqb negb].
  f_equal. now rewrite <- !app_assoc.
Qed.

Lemma output_loop_ok (acos_in_domain : double -> double)
      (have_format : bool) (pairs : list (dvec * dvec)) :
  (forall p, In p pairs ->
             theta acos_in_domain (fst p) (snd p)
             = Ok (angle_of acos_in_domain p)) ->
  forall out,
    output_loop (if have_format then format_line acos_in_domain
                 else stream_line acos_in_domain) out pairs
    = {| written := out ++ flat_map (output_line acos_in_domain) pairs;
         outcome := Ok 0%Z |}.
Proof.
  induction pairs as [|p pairs IH]; intros H out.
  - cbn. now rewrite app_nil_r.
  - cbn [output_loop flat_map].
    assert (L : (if have_format then format_line acos_in_domain
                 else stream_line acos_in_domain) out p
                = {| written := out ++ output_line acos_in_domain p;
                     outcome := Ok 0%Z |}).
    { destruct have_format;
        [apply format_line_ok | apply stream_line_ok];
        apply H; now left. }
    rewrite L. cbn [outcome written].
    rewrite IH by (intros q Hq; apply H; now right).
    now rewrite <- app_assoc.
Qed.

(** X10.  A run on a file that is ingested without error and whose pairs
    all have an angle that is a number: [main] returns [0], and what it
    writes is one line for each pair of [theta_sort]'s result, which is a
    reordering of the pairs of [pairwise_elts] with non-decreasing angles;
    with [N] lines in the file there are [N * (N - 1) / 2] output lines;
    and the two compilations of the output loop write the same text.
    [std::sort] is any algorithm that meets its contract. *)
Theorem main_success (open_file : string -> option chars)
        (std_sort : sort_function) (acos_in_domain : double -> double)
        (argv : list string) (ifile : chars) (vecs : list dvec) :
  std_sort_contract std_sort ->
  open_file (input_name argv) = Some ifile ->
  ingest_dvecs ifile = Ok vecs ->
  (forall p t, In p (pairwise_elts vecs) ->
               theta acos_in_domain (fst p) (snd p) = Ok t ->
               is_nan t = false) ->
  exists vecpairs,
    Permutation (pairwise_elts vecs) vecpairs /\
    StronglySorted (fun x y => leb x y = true)
                   (map (angle_of acos_in_domain) vecpairs) /\
    length vecpairs
    = length (getlines ifile) * (length (getlines ifile) - 1) / 2 /\
    forall have_format,
      main have_format open_file std_sort acos_in_domain argv
      = {| written := flat_map (output_line acos_in_domain) vecpairs;
           outcome := Ok 0%Z |}.
Proof.
  intros Hsort Hopen Hin Hnan.
  assert (Hd : exists n, same_dimension n vecs).
  { rewrite ingest_dvecs_closed_form in Hin.
    destruct (getlines ifile) as [|first rest].
    - injection Hin as <-. exists 0. constructor.
    - destruct (forallb _ rest) eqn:F; [|discriminate].
      injection Hin as <-. exists (dimension_of first).
      cbn [map]. constructor; [reflexivity|].
      apply Forall_map, Forall_forall. intros l Hl.
      rewrite forallb_forall in F. apply Nat.eqb_eq, F, Hl. }
  destruct Hd as [n Hd].
  destruct (theta_sort_spec std_sort acos_in_domain n vecs Hsort Hd Hnan)
    as (vecpairs & E & P & S & _).
  exists vecpairs. split; [exact P|]. split; [exact S|]. split.
  - rewrite <- (Permutation_length P), pairwise_elts_all_pairs.
    pose proof (ingest_dvecs_ok_lines ifile) as K. rewrite Hin in K.
    rewrite <- (length_map parse_line (getlines ifile)), <- K.
    rewrite <- all_pairs_length, Nat.mul_comm.
    symmetry. apply Nat.div_mul. discriminate.
  - intros have_format. unfold main. rewrite Hopen, Hin, E.
    rewrite output_loop_ok; [reflexivity|].
    intros p Hp. apply (pairs_have_angles acos_in_domain n vecs p Hd).
    apply (Permutation_in p (Permutation_sym P) Hp).
Qed.

Lemma main_success_witness :
  exists vecpairs,
    Permutation (pairwise_elts parallel_vectors) vecpairs /\
    StronglySorted (fun x y => leb x y = true)
                   (map (angle_of unused_acos) vecpairs) /\
    length vecpairs = 3 /\
    forall have_format,
      main have_format example_files insertion_sort unused_acos
           ["lab7"%string]
      = {| written := flat_map (output_line unused_acos) vecpairs;
           outcome := Ok 0%Z |}.
Proof.
  apply (main_success example_files insertion_sort unused_acos
                      ["lab7"%string] (text "3 4
6 8
9 12") parallel_vectors).
  - apply insertion_sort_contract.
  - reflexivity.
  - vm_compute. reflexivity.
  - apply no_nan_angle_spec. vm_compute. reflexivity.
Defined.

(** X11.  The failures of a run.  [main] reads the file named by its one
    argument, and [test.txt] with any other number of arguments.  When the
    file cannot be opened it throws the error [no input file]; when a line
    of the file has another dimension than the first line it throws the
    error of [ingest_dvecs]; in both cases nothing is written. *)
Theorem main_failure (have_format : bool)
        (open_file : string -> option chars)
        (std_sort : sort_function) (acos_in_domain : double -> double)
        (argv : list string) :
  (length argv <> 2 -> input_name argv = "test.txt"%string) /\
  (forall program name, argv = [program; name] -> input_name argv = name) /\
  (open_file (input_name argv) = None ->
   main have_format open_file std_sort acos_in_domain argv
   = {| written := [];
        outcome := Throw (runtime_error "no input file") |}) /\
  (forall ifile first rest,
      open_file (input_name argv) = Some ifile ->
      getlines ifile = first :: rest ->
      Exists (fun l => dimension_of l <> dimension_of first) rest ->
      main have_format open_file std_sort acos_in_domain argv
      = {| written := [];
           outcome := Throw mismatched_input_vector_dimensions |}).
Proof.
  split; [|split; [|split]].
  - intros H. unfold input_name. apply Nat.eqb_neq in H. now rewrite H.
  - intros program name ->. reflexivity.
  - intros H. unfold main. now rewrite H.
  - intros ifile first rest Hopen Hl E. unfold main. rewrite Hopen.
    now rewrite (ingest_throws_on ifile first rest Hl E).
Qed.

Lemma main_failure_witness :
  input_name ["lab7"; "a.txt"; "b.txt"]%string = "test.txt"%string /\
  main false example_files insertion_sort unused_acos
       ["lab7"; "a.txt"]%string
  = {| written := [];
       outcome := Throw (runtime_error "no input file") |} /\
  main false (fun _ => Some (text "1 2
3")) insertion_sort unused_acos ["lab7"%string]
  = {| written := [];
       outcome := Throw mismatched_input_vector_dimensions |}.
Proof.
  split; [|split].
  - apply (main_failure false example_files insertion_sort unused_acos
                        ["lab7"; "a.txt"; "b.txt"]%string).
    cbn. lia.
  - apply (main_failure false example_files insertion_sort unused_acos
                        ["lab7"; "a.txt"]%string).
    reflexivity.
  - apply (proj2 (proj2 (proj2
             (main_failure false (fun _ => Some (text "1 2
3")) insertion_sort unused_acos ["lab7"%string])))
             (text "1 2
3") (text "1 2") [text "3"]).
    + reflexivity.
    + reflexivity.
    + left. vm_compute. lia.
Defined.

(** X12.  A file with at most one line gives no pair: whatever the line
    holds, [main] writes nothing and returns [0], with either compilation
    of the output loop. *)
Theorem main_short_file (have_format : bool)
        (open_file : string -> option chars)
        (std_sort : sort_function) (acos_in_domain : double -> double)
        (argv : list string) (ifile : chars) :
  std_sort_contract std_sort ->
  open_file (input_name argv) = Some ifile ->
  length (getlines ifile) <= 1 ->
  main have_format open_file std_sort acos_in_domain argv
  = {| written := []; outcome := Ok 0%Z |}.
Proof.
  intros Hsort Hopen Hl. unfold main. rewrite Hopen.
  rewrite ingest_dvecs_closed_form.
  assert (K : exists vecs,
             match getlines ifile with
             | [] => Ok []
             | first :: rest =>
                 if forallb (fun l => dimension_of l =? dimension_of first)
                            rest
                 then Ok (map parse_line (first :: rest))
                 else Throw mismatched_input_vector_dimensions
             end = Ok vecs /\ pairwise_elts vecs = []).
  { destruct (getlines ifile) as [|first [|second rest]].
    - exists []. auto.
    - exists [parse_line first]. auto.
    - cbn in Hl. lia. }
  destruct K as (vecs & -> & Hp).
  unfold theta_sort. rewrite Hp.
  destruct (Hsort _ (theta_less acos_in_domain) []) as (out & E & P & _).
  - exists (fun _ _ => false). repeat split; intros; contradiction.
  - apply Permutation_nil in P. subst out. rewrite E.
    destruct have_format; reflexivity.
Qed.

Lemma main_short_file_witness :
  main true (fun _ => Some (text "no numbers here")) insertion_sort
       unused_acos ["lab7"%string]
  = {| written := []; outcome := Ok 0%Z |}.
Proof.
  apply (main_short_file true (fun _ => Some (text "no numbers here"))
                         insertion_sort unused_acos ["lab7"%string]
                         (text "no numbers here")).
  - apply insertion_sort_contract.
  - reflexivity.
  - vm_compute. lia.
Defined.

(* ================================================================== *)
(** * White space in a line *)

Lemma extract_double_skipws (s s' : chars) :
  skipws s = skipws s' -> extract_double s = extract_double s'.
Proof. intros H. unfold extract_double. now rewrite H. Qed.

Lemma parse_line_skipws (s s' : chars) :
  skipws s = skipws s' -> parse_line s = parse_line s'.
Proof.
  intros H. rewrite (parse_line_unfold s), (parse_line_unfold s').
  now rewrite (extract_double_skipws s s' H).
Qed.

Lemma space_not_number (c : ascii) : isspace c = true -> number_char c = false.
Proof.
  intros H. destruct (number_char c) eqn:N; [|reflexivity].
  apply number_char_not_space in N. congruence.
Qed.

Lemma parse_line_between (n : nat) :
  forall (a ws1 ws2 b : chars),
    length a <= n ->
    ws1 <> [] -> ws2 <> [] ->
    forallb isspace ws1 = true -> forallb isspace ws2 = true ->
    parse_line (a ++ ws1 ++ b) = parse_line (a ++ ws2 ++ b).
Proof.
  induction n as [|n IH]; intros a ws1 ws2 b Hn N1 N2 H1 H2.
  - destruct a; [|cbn in Hn; lia]. cbn [app].
    apply parse_line_skipws. now rewrite !skipws_spaces_app.
  - destruct (skipws a) as [|d a'] eqn:E.
    + apply parse_line_skipws.
      rewrite !(skipws_app_blank a _ E). now rewrite !skipws_spaces_app.
    + rewrite (parse_line_unfold (a ++ ws1 ++ b)),
              (parse_line_unfold (a ++ ws2 ++ b)).
      unfold extract_double.
      rewrite !(skipws_app_visible a _ d a' E).
      destruct ws1 as [|w1 ws1]; [congruence|].
      destruct ws2 as [|w2 ws2]; [congruence|].
      cbn [forallb] in H1, H2.
      apply andb_true_iff in H1, H2. destruct H1 as [W1 H1], H2 as [W2 H2].
      change (d :: a' ++ (w1 :: ws1) ++ b)
        with ((d :: a') ++ w1 :: (ws1 ++ b)).
      change (d :: a' ++ (w2 :: ws2) ++ b)
        with ((d :: a') ++ w2 :: (ws2 ++ b)).
      rewrite !extract_float_suffix by now apply space_not_number.
      destruct (extract_float (d :: a')) as [x r] eqn:F. cbn [fst snd].
      destruct (convert_to_v x) as [v|] eqn:C; [|reflexivity].
      f_equal.
      change (r ++ w1 :: ws1 ++ b) with (r ++ (w1 :: ws1) ++ b).
      change (r ++ w2 :: ws2 ++ b) with (r ++ (w2 :: ws2) ++ b).
      apply IH; try discriminate;
        try (cbn [forallb]; apply andb_true_iff; now split).
      destruct (extract_float_consumed _ _ _ F) as (k & Hk & _ & Hl).
      destruct x as [|x0 x]; [discriminate C|].
      apply (f_equal (@length ascii)) in Hk. rewrite length_app in Hk.
      pose proof (skipws_length a) as La. rewrite E in La.
      cbn [length] in *. lia.
Qed.

Lemma parse_line_trailing (n : nat) :
  forall (a ws : chars),
    length a <= n -> forallb isspace ws = true ->
    parse_line (a ++ ws) = parse_line a.
Proof.
  induction n as [|n IH]; intros a ws Hn Hw.
  - destruct a; [|cbn in Hn; lia]. cbn [app].
    apply parse_line_skipws. now rewrite skipws_spaces.
  - destruct (skipws a) as [|d a'] eqn:E.
    + apply parse_line_skipws.
      rewrite (skipws_app_blank a _ E), E. now apply skipws_spaces.
    + destruct ws as [|w ws]; [now rewrite app_nil_r|].
      cbn [forallb] in Hw. apply andb_true_iff in Hw.
      destruct Hw as [W Hw].
      rewrite (parse_line_unfold (a ++ w :: ws)), (parse_line_unfold a).
      unfold extract_double.
      rewrite (skipws_app_visible a _ d a' E), E.
      change (d :: a' ++ w :: ws) with ((d :: a') ++ w :: ws).
      rewrite extract_float_suffix by now apply space_not_number.
      destruct (extract_float (d :: a')) as [x r] eqn:F. cbn [fst snd].
      destruct (convert_to_v x) as [v|] eqn:C; [|reflexivity].
      f_equal.
      change (r ++ w :: ws) with (r ++ (w :: ws)).
      apply IH; [|cbn [forallb]; apply andb_true_iff; now split].
      destruct (extract_float_consumed _ _ _ F) as (k & Hk & _ & Hl).
      destruct x as [|x0 x]; [discriminate C|].
      apply (f_equal (@length ascii)) in Hk. rewrite length_app in Hk.
      pose proof (skipws_length a) as La. rewrite E in La.
      cbn [length] in *. lia.
Qed.

(** X13.  Only the presence of white space counts in a line: white space
    at the start and at the end of a line changes nothing, and between two
    parts of a line any white space (blanks, tabs, carriage returns) does
    what any other does. *)
Theorem parse_line_white_space (a b ws ws1 ws2 : chars) :
  forallb isspace ws = true ->
  forallb isspace ws1 = true -> forallb isspace ws2 = true ->
  ws1 <> [] -> ws2 <> [] ->
  parse_line (ws ++ a) = parse_line a /\
  parse_line (a ++ ws) = parse_line a /\
  parse_line (a ++ ws1 ++ b) = parse_line (a ++ ws2 ++ b).
Proof.
  intros H H1 H2 N1 N2. split; [|split].
  - apply parse_line_skipws. now apply skipws_spaces_app.
  - now apply (parse_line_trailing (length a)).
  - now apply (parse_line_between (length a)).
Qed.

Lemma parse_line_white_space_witness :
  parse_line (text "  1 2") = parse_line (text "1 2") /\
  parse_line (text "1 2" ++ ["013"%char]) = parse_line (text "1 2") /\
  parse_line (text "1" ++ ["009"%char] ++ text "2")
  = parse_line (text "1" ++ text "   " ++ text "2").
Proof.
  destruct (parse_line_white_space (text "1 2") [] (text "  ")
              ["013"%char] [" "%char]) as (A & _ & _);
    try reflexivity; try discriminate.
  destruct (parse_line_white_space (text "1 2") [] ["013"%char]
              ["013"%char] [" "%char]) as (_ & B & _);
    try reflexivity; try discriminate.
  destruct (parse_line_white_space (text "1") (text "2") []
              ["009"%char] (text "   ")) as (_ & _ & C);
    try reflexivity; try discriminate.
  repeat split; assumption.
Defined.

(* ================================================================== *)
(** * Reading what the program writes *)

Lemma theta_letter_head :
  exists t, theta_letter = "240"%char :: t.
Proof. eexists. reflexivity. Qed.

(** X14.  The program cannot read what it writes: the rendering of a
    vector starts with a bracket and a line of the output starts with the
    letter theta, so [ingest_dvecs]'s reading of either as a line gives
    the empty vector, whatever the vector or the pair. *)
Theorem written_text_reads_empty (acos_in_domain : double -> double)
        (v : dvec) (p : dvec * dvec) :
  parse_line (render v) = [] /\
  parse_line (output_line acos_in_domain p) = [].
Proof.
  split; apply parse_line_no_number.
  - assert (E : exists t, render v = "["%char :: t).
    { unfold render. destruct (length v =? 0); eexists; reflexivity. }
    destruct E as [t ->].
    apply (extract_double_no_start [] "["%char t); reflexivity.
  - unfold output_line. destruct theta_letter_head as [t ->].
    cbn [app].
    apply (extract_double_no_start [] "240"%char); reflexivity.
Qed.

(* ================================================================== *)
(** * The comparator of [theta_sort] *)

Lemma ltb_nan_l (x : double) : ltb nan x = false.
Proof. reflexivity. Qed.

Lemma ltb_nan_r (x : double) : ltb x nan = false.
Proof. destruct x; reflexivity. Qed.

(** X15.  The comparator [theta_sort] gives to [std::sort] meets the
    requirement of [std::sort] (a strict weak ordering) on the pairs of
    vectors of one dimension whose angles are all numbers.  It does not
    when the zero vector is among vectors of different directions: with an
    arc cosine that is positive at [0], the pairs of [(0,0)], [(1,0)],
    [(2,0)], [(0,1)] are not ordered by it, the NaN angle being
    incomparable both to the angle [0] and to the larger angle. *)
Theorem comparator_strict_weak_ordering
        (acos_in_domain : double -> double) (n : nat) (vecs : list dvec) :
  (same_dimension n vecs ->
   (forall p t, In p (pairwise_elts vecs) ->
                theta acos_in_domain (fst p) (snd p) = Ok t ->
                is_nan t = false) ->
   strict_weak_ordering_on (theta_less acos_in_domain)
                           (pairwise_elts vecs)) /\
  (ltb zero (acos_in_domain zero) = true ->
   same_dimension 2 with_zero_vector /\
   ~ strict_weak_ordering_on (theta_less acos_in_domain)
                             (pairwise_elts with_zero_vector)).
Proof.
  split; [apply theta_less_strict_weak|].
  intros Hpos. split; [repeat constructor|].
  intros (less & Hc & _ & _ & Hinc).
  set (p0 := ([zero; zero], [one; zero]) : dvec * dvec).
  set (p1 := ([one; zero], [of_Z 2; zero]) : dvec * dvec).
  set (p2 := ([one; zero], [zero; one]) : dvec * dvec).
  assert (I0 : In p0 (pairwise_elts with_zero_vector))
    by (vm_compute; tauto).
  assert (I1 : In p1 (pairwise_elts with_zero_vector))
    by (vm_compute; tauto).
  assert (I2 : In p2 (pairwise_elts with_zero_vector))
    by (vm_compute; tauto).
  assert (A0 : theta acos_in_domain (fst p0) (snd p0) = Ok nan)
    by (vm_compute; reflexivity).
  assert (A1 : theta acos_in_domain (fst p1) (snd p1) = Ok zero)
    by (vm_compute; reflexivity).
  assert (A2 : theta acos_in_domain (fst p2) (snd p2)
               = Ok (acos_in_domain zero))
    by (vm_compute; reflexivity).
  assert (L : forall p q tp tq,
             In p (pairwise_elts with_zero_vector) ->
             In q (pairwise_elts with_zero_vector) ->
             theta acos_in_domain (fst p) (snd p) = Ok tp ->
             theta acos_in_domain (fst q) (snd q) = Ok tq ->
             less p q = ltb tp tq).
  { intros p q tp tq Hp Hq Tp Tq. pose proof (Hc p q Hp Hq) as K.
    unfold theta_less in K. rewrite Tp, Tq in K. cbn [bind] in K.
    now injection K. }
  destruct (Hinc p1 p0 p2 I1 I0 I2) as [K _].
  - rewrite (L p1 p0 _ _ I1 I0 A1 A0). apply ltb_nan_r.
  - rewrite (L p0 p1 _ _ I0 I1 A0 A1). apply ltb_nan_l.
  - rewrite (L p0 p2 _ _ I0 I2 A0 A2). apply ltb_nan_l.
  - rewrite (L p2 p0 _ _ I2 I0 A2 A0). apply ltb_nan_r.
  - rewrite (L p1 p2 _ _ I1 I2 A1 A2) in K. congruence.
Qed.

Lemma comparator_strict_weak_ordering_witness :
  strict_weak_ordering_on (theta_less (fun _ => one))
                          (pairwise_elts parallel_vectors) /\
  ~ strict_weak_ordering_on (theta_less (fun _ => one))
                            (pairwise_elts with_zero_vector).
Proof.
  split.
  - apply (comparator_strict_weak_ordering (fun _ => one) 2
                                           parallel_vectors).
    + repeat constructor.
    + apply no_nan_angle_spec. vm_compute. reflexivity.
  - apply (comparator_strict_weak_ordering (fun _ => one) 2
                                           parallel_vectors).
    vm_compute. reflexivity.
Defined.
